(** * Twilio webhook signature validation (middleware/validateTwilio.js)

    A shallow embedding of [TwilioSignatureValidator]: the canonical
    signature string, the HMAC-SHA1 digest, the base64 transport encoding
    as the Node runtime encodes and decodes it, the per-token check
    [validateSignature] and the Express [middleware] that tries every
    configured auth token.

    JavaScript strings are sequences of UTF-16 code units and buffers are
    sequences of bytes; both are lists over [Z].  The runtime functions the
    source calls ([crypto.createHmac], [Buffer.from], [crypto.timingSafeEqual],
    [Array.prototype.sort]) are modelled by executable definitions, so every
    function below can be evaluated on concrete requests. *)

From Stdlib Require Import ZArith String Ascii Lia.
From stdpp Require Import base tactics option list sorting.

Local Open Scope Z_scope.

(** ** Strings and buffers *)

(** A JavaScript string, as its UTF-16 code units. *)
Definition jsstring := list Z.

(** A [Buffer], as its bytes. *)
Definition bytes := list Z.

(** String literals of the source (ASCII text). *)
Fixpoint js (s : string) : jsstring :=
  match s with
  | EmptyString => []
  | String a s' => Z.of_N (N_of_ascii a) :: js s'
  end.

(** [x + y] where an operand may be [undefined]: string concatenation
    spells it out. *)
Definition to_str (o : option jsstring) : jsstring :=
  match o with
  | Some s => s
  | None => js "undefined"
  end.

(** [!s] for a value that is a string or [undefined]. *)
Definition falsy (o : option jsstring) : bool :=
  match o with
  | None => true
  | Some [] => true
  | Some (_ :: _) => false
  end.

(** [a || b] on such values. *)
Definition or_else (a b : option jsstring) : option jsstring :=
  if falsy a then b else a.

Definition byte_range (b : Z) : Prop := 0 <= b < 256.

(** The bytes [update(s, 'utf-8')] hashes: the UTF-8 encoding of the code
    units, a surrogate pair giving one four-byte sequence and a lone
    surrogate the replacement character U+FFFD. *)
Definition is_high_surrogate (c : Z) : bool := (0xD800 <=? c) && (c <? 0xDC00).
Definition is_low_surrogate (c : Z) : bool := (0xDC00 <=? c) && (c <? 0xE000).

Definition utf8_replacement : bytes := [0xEF; 0xBF; 0xBD].

Definition utf8_3 (c : Z) : bytes :=
  [Z.lor 0xE0 (Z.shiftr c 12);
   Z.lor 0x80 (Z.land (Z.shiftr c 6) 0x3F);
   Z.lor 0x80 (Z.land c 0x3F)].

Definition utf8_4 (cp : Z) : bytes :=
  [Z.lor 0xF0 (Z.shiftr cp 18);
   Z.lor 0x80 (Z.land (Z.shiftr cp 12) 0x3F);
   Z.lor 0x80 (Z.land (Z.shiftr cp 6) 0x3F);
   Z.lor 0x80 (Z.land cp 0x3F)].

Fixpoint utf8 (s : jsstring) : bytes :=
  match s with
  | [] => []
  | c :: rest =>
      if c <? 0x80 then c :: utf8 rest
      else if c <? 0x800 then
        Z.lor 0xC0 (Z.shiftr c 6) :: Z.lor 0x80 (Z.land c 0x3F) :: utf8 rest
      else if is_high_surrogate c then
        match rest with
        | d :: rest' =>
            if is_low_surrogate d then
              utf8_4 (0x10000 + Z.shiftl (c - 0xD800) 10 + (d - 0xDC00))
                ++ utf8 rest'
            else utf8_replacement ++ utf8 rest
        | [] => utf8_replacement
        end
      else if is_low_surrogate c then utf8_replacement ++ utf8 rest
      else utf8_3 c ++ utf8 rest
  end.

(** ** SHA-1 and HMAC ([crypto.createHmac('sha1', key)]) *)

Module Sha1.

Definition w32 (x : Z) : Z := x mod 2 ^ 32.

Definition add32 (a b : Z) : Z := w32 (a + b).

Definition rotl (n x : Z) : Z :=
  w32 (Z.lor (Z.shiftl x n) (Z.shiftr x (32 - n))).

Definition not32 (x : Z) : Z := Z.lxor x 0xFFFFFFFF.

(** Big-endian bytes of a word and back. *)
Definition be32 (w : Z) : bytes :=
  [(w / 2 ^ 24) mod 256; (w / 2 ^ 16) mod 256; (w / 2 ^ 8) mod 256; w mod 256].

Definition be64 (n : Z) : bytes := be32 (n / 2 ^ 32) ++ be32 n.

Definition word_of (b0 b1 b2 b3 : Z) : Z :=
  Z.lor (Z.shiftl b0 24) (Z.lor (Z.shiftl b1 16) (Z.lor (Z.shiftl b2 8) b3)).

Fixpoint words_of (n : nat) (bs : bytes) : list Z :=
  match n, bs with
  | S n', b0 :: b1 :: b2 :: b3 :: rest => word_of b0 b1 b2 b3 :: words_of n' rest
  | _, _ => []
  end.

(** Message padding: a one bit, zeros up to 56 modulo 64, the bit length. *)
Definition pad (m : bytes) : bytes :=
  let len := Z.of_nat (length m) in
  m ++ [0x80] ++ repeat 0 (Z.to_nat ((55 - len) mod 64)) ++ be64 (8 * len).

(** The message schedule, kept as the sixteen most recent words
    (newest first); [next_word] is w[t] from w[t-3], w[t-8], w[t-14],
    w[t-16]. *)
Definition next_word (recent : list Z) : Z :=
  rotl 1 (Z.lxor (Z.lxor (nth 2 recent 0) (nth 7 recent 0))
                 (Z.lxor (nth 13 recent 0) (nth 15 recent 0))).

Definition round_f (t : nat) (b c d : Z) : Z :=
  if (t <? 20)%nat then Z.lor (Z.land b c) (Z.land (not32 b) d)
  else if (t <? 40)%nat then Z.lxor (Z.lxor b c) d
  else if (t <? 60)%nat then
    Z.lor (Z.lor (Z.land b c) (Z.land b d)) (Z.land c d)
  else Z.lxor (Z.lxor b c) d.

Definition round_k (t : nat) : Z :=
  if (t <? 20)%nat then 0x5A827999
  else if (t <? 40)%nat then 0x6ED9EBA1
  else if (t <? 60)%nat then 0x8F1BBCDC
  else 0xCA62C1D6.

Record state := State { h0 : Z; h1 : Z; h2 : Z; h3 : Z; h4 : Z }.

Definition init : state :=
  State 0x67452301 0xEFCDAB89 0x98BADCFE 0x10325476 0xC3D2E1F0.

Definition step (t : nat) (w : Z) (s : state) : state :=
  let '(State a b c d e) := s in
  State (add32 (add32 (add32 (add32 (rotl 5 a) (round_f t b c d)) e) (round_k t)) w)
        a (rotl 30 b) c d.

(** Rounds [t], [t+1], ... for [n] rounds; the first sixteen words come
    from the block, the others from the schedule. *)
Fixpoint rounds (n t : nat) (block recent : list Z) (s : state) : state :=
  match n with
  | O => s
  | S n' =>
      let w := match block with
               | x :: _ => x
               | [] => next_word recent
               end in
      rounds n' (S t) (tl block) (w :: firstn 15 recent) (step t w s)
  end.

Definition compress (s : state) (block : list Z) : state :=
  let '(State a b c d e) := rounds 80 0 block [] s in
  State (add32 (h0 s) a) (add32 (h1 s) b) (add32 (h2 s) c)
        (add32 (h3 s) d) (add32 (h4 s) e).

Fixpoint blocks (n : nat) (bs : bytes) (s : state) : state :=
  match n with
  | O => s
  | S n' => blocks n' (skipn 64 bs) (compress s (words_of 16 bs))
  end.

Definition digest (s : state) : bytes :=
  be32 (h0 s) ++ be32 (h1 s) ++ be32 (h2 s) ++ be32 (h3 s) ++ be32 (h4 s).

Definition sha1 (m : bytes) : bytes :=
  let p := pad m in
  digest (blocks (length p / 64) p init).

(** HMAC (RFC 2104) with the 64-byte block of SHA-1: a key longer than a
    block is hashed, a shorter one is filled with zero bytes. *)
Definition block_key (key : bytes) : bytes :=
  let k := if (64 <? length key)%nat then sha1 key else key in
  k ++ repeat 0 (64 - length k)%nat.

Definition hmac (key msg : bytes) : bytes :=
  let k := block_key key in
  sha1 (map (Z.lxor 0x5C) k ++ sha1 (map (Z.lxor 0x36) k ++ msg)).

End Sha1.

(** Lower-case hexadecimal, for test vectors. *)
Definition hex_digit (d : Z) : Z := if d <? 10 then 48 + d else 87 + d.

Definition hex (bs : bytes) : jsstring :=
  flat_map (fun b => [hex_digit (b / 16); hex_digit (b mod 16)]) bs.

(** ** Base64 as the runtime writes and reads it *)

Module Base64.

(** The character of a six-bit value: A-Z, a-z, 0-9, plus, slash. *)
Definition alphabet (v : Z) : Z :=
  if v <? 26 then 65 + v
  else if v <? 52 then 71 + v
  else if v <? 62 then v - 4
  else if v =? 62 then 43
  else 47.

Definition pad_char : Z := 61.

Definition sextet (v : Z) : Prop := 0 <= v < 64.

(** The four six-bit values of a group of three bytes. *)
Definition sextet0 (b0 : Z) : Z := Z.shiftr b0 2.
Definition sextet1 (b0 b1 : Z) : Z := Z.lor (Z.shiftl (Z.land b0 3) 4) (Z.shiftr b1 4).
Definition sextet2 (b1 b2 : Z) : Z := Z.lor (Z.shiftl (Z.land b1 15) 2) (Z.shiftr b2 6).
Definition sextet3 (b2 : Z) : Z := Z.land b2 63.

(** [digest('base64')] and [buf.toString('base64')]: three bytes give
    four characters, a last group of one or two bytes is padded. *)
Fixpoint encode (bs : bytes) : jsstring :=
  match bs with
  | [] => []
  | [b0] =>
      [alphabet (sextet0 b0);
       alphabet (Z.shiftl (Z.land b0 3) 4);
       pad_char; pad_char]
  | [b0; b1] =>
      [alphabet (sextet0 b0);
       alphabet (sextet1 b0 b1);
       alphabet (Z.shiftl (Z.land b1 15) 2);
       pad_char]
  | b0 :: b1 :: b2 :: rest =>
      alphabet (sextet0 b0)
      :: alphabet (sextet1 b0 b1)
      :: alphabet (sextet2 b1 b2)
      :: alphabet (sextet3 b2)
      :: encode rest
  end.

(** The value of a character when it is read.  The reader takes a code
    unit as a byte, its low eight bits, and knows the standard alphabet and
    the URL-safe minus and underscore; any other character has no value.  (A
    header value holds code units below 256, the HTTP parser reading it
    byte by byte.) *)
Definition unbase64 (c : Z) : option Z :=
  let b := c mod 256 in
  if (65 <=? b) && (b <=? 90) then Some (b - 65)
  else if (97 <=? b) && (b <=? 122) then Some (b - 71)
  else if (48 <=? b) && (b <=? 57) then Some (b + 4)
  else if (b =? 43) || (b =? 45) then Some 62
  else if (b =? 47) || (b =? 95) then Some 63
  else None.

(** Where the reader stands inside a group of four characters, with the
    value of the character read last. *)
Inductive phase := P0 | P1 (hi : Z) | P2 (hi : Z) | P3 (hi : Z).

(** The byte completed by the second, third and fourth character of a
    group, from the value before it ([hi]) and its own ([lo]). *)
Definition byte0 (hi lo : Z) : Z :=
  Z.lor (Z.shiftl (Z.land hi 0x3F) 2) (Z.shiftr (Z.land lo 0x30) 4).
Definition byte1 (hi lo : Z) : Z :=
  Z.lor (Z.shiftl (Z.land hi 0x0F) 4) (Z.shiftr (Z.land lo 0x3C) 2).
Definition byte2 (hi lo : Z) : Z :=
  Z.lor (Z.shiftl (Z.land hi 0x03) 6) (Z.land lo 0x3F).

(** [Buffer.from(s, 'base64')] never fails: a character outside the
    alphabet is skipped, the first padding character ends the input, and
    a byte is written as soon as its bits are complete, so an unfinished
    last group keeps the bytes it has. *)
Fixpoint decode_from (p : phase) (cs : jsstring) : bytes :=
  match cs with
  | [] => []
  | c :: rest =>
      match unbase64 c with
      | Some lo =>
          match p with
          | P0 => decode_from (P1 lo) rest
          | P1 hi => byte0 hi lo :: decode_from (P2 lo) rest
          | P2 hi => byte1 hi lo :: decode_from (P3 lo) rest
          | P3 hi => byte2 hi lo :: decode_from P0 rest
          end
      | None => if c mod 256 =? pad_char then [] else decode_from p rest
      end
  end.

Definition decode (s : jsstring) : bytes := decode_from P0 s.

(** Well-formed base64 in the sense of RFC 4648, section 4: only
    characters of the standard alphabet, in groups of four, the last group
    possibly ending in one or two padding characters.  The runtime does
    not check this; it is the reference for a header that can be decoded
    in the strict sense. *)
Definition standard_char (c : Z) : bool :=
  ((65 <=? c) && (c <=? 90)) || ((97 <=? c) && (c <=? 122))
  || ((48 <=? c) && (c <=? 57)) || (c =? 43) || (c =? 47).

Fixpoint well_formed (cs : jsstring) : bool :=
  match cs with
  | [] => true
  | [a; b; c; d] =>
      standard_char a && standard_char b
      && ((standard_char c && (standard_char d || (d =? pad_char)))
          || ((c =? pad_char) && (d =? pad_char)))
  | a :: b :: c :: d :: rest =>
      standard_char a && standard_char b && standard_char c && standard_char d
      && well_formed rest
  | _ => false
  end.

End Base64.


(** ** Objects and the default sort *)

(** A request body: the own enumerable properties of the object, in the
    order [Object.keys] lists them.  The names of a JavaScript object are
    distinct ([NoDup (keys o)]). *)
Definition object := list (jsstring * jsstring).

Definition keys (o : object) : list jsstring := o.*1.

(** [o[key]]: the value of the property, [undefined] when there is none. *)
Fixpoint prop (o : object) (key : jsstring) : option jsstring :=
  match o with
  | [] => None
  | (k, v) :: o' => if decide (k = key) then Some v else prop o' key
  end.

(** The order of [Array.prototype.sort()] without a comparator: strings
    compared code unit by code unit, a proper prefix first. *)
Fixpoint codeunits_le (a b : jsstring) : bool :=
  match a, b with
  | [], _ => true
  | _ :: _, [] => false
  | x :: a', y :: b' => (x <? y) || ((x =? y) && codeunits_le a' b')
  end.

Definition str_le (a b : jsstring) : Prop := codeunits_le a b.

(** [arr.sort()].  The order is total and antisymmetric, so the sorted
    array does not depend on the sorting algorithm. *)
Definition sort (l : list jsstring) : list jsstring := merge_sort str_le l.

(** ** Effects: the log, the digests computed, exceptions *)

(** What a run does besides returning: a keyed digest computed with
    [createHmac] (the key and the string hashed), and the console calls with
    their message (the object logged beside it, which carries the time of
    day, is left out). *)
Inductive event :=
  | HmacSha1 (key data : jsstring)
  | ConsoleError (msg detail : jsstring)
  | ConsoleWarn (msg : jsstring)
  | ConsoleLog (msg : jsstring).

(** The exceptions of the source and of the runtime calls it makes. *)
Inductive error :=
  | Error (message : jsstring)
  | RangeError (message : jsstring)
  | TypeError (message : jsstring).

Definition error_message (e : error) : jsstring :=
  match e with
  | Error m => m
  | RangeError m => m
  | TypeError m => m
  end.

Inductive completion (A : Type) :=
  | Normal (a : A)
  | Throw (e : error).
Arguments Normal {A} a.
Arguments Throw {A} e.

(** A computation: how it completes and what it did, oldest event first. *)
Definition M (A : Type) : Type := completion A * list event.

Definition ret {A} (a : A) : M A := (Normal a, []).

Definition throw {A} (e : error) : M A := (Throw e, []).

Definition emit (ev : event) : M unit := (Normal tt, [ev]).

Definition bind {A B} (m : M A) (f : A -> M B) : M B :=
  match m with
  | (Normal a, t) => let '(c, t') := f a in (c, t ++ t')
  | (Throw e, t) => (Throw e, t)
  end.

Definition try_catch {A} (m : M A) (handler : error -> M A) : M A :=
  match m with
  | (Normal a, t) => (Normal a, t)
  | (Throw e, t) => let '(c, t') := handler e in (c, t ++ t')
  end.

Notation "'do' x <- m ; k" := (bind m (fun x => k))
  (at level 10, x name, m at level 100, k at level 200).
Notation "'run' m ; k" := (bind m (fun _ => k))
  (at level 10, m at level 100, k at level 200).

(** [arr.some(f)]: the elements in order, stopping at the first for which
    [f] answers true. *)
Fixpoint some {A} (f : A -> M bool) (arr : list A) : M bool :=
  match arr with
  | [] => ret false
  | x :: arr' => do b <- f x; if b then ret true else some f arr'
  end.

(** [crypto.createHmac('sha1', key).update(data, 'utf-8').digest('base64')] *)
Definition hmac_sha1_base64 (key data : jsstring) : M jsstring :=
  run emit (HmacSha1 key data);
  ret (Base64.encode (Sha1.hmac (utf8 key) (utf8 data))).

(** [crypto.timingSafeEqual(a, b)]: buffers of different lengths are an
    error, buffers of one length are compared in full. *)
Definition timingSafeEqual (a b : bytes) : M bool :=
  if (length a =? length b)%nat then ret (bool_decide (a = b))
  else throw (RangeError (js "Input buffers must have the same byte length")).

(** ** The validator *)

Record TwilioSignatureValidator := Validator {
  authTokens : list jsstring;
  accountSid : jsstring
}.

(** The argument of the constructor: one token or an array of tokens. *)
Inductive tokens_arg :=
  | Single (token : jsstring)
  | Tokens (tokens : list jsstring).

Definition constructor (tokens : tokens_arg) (sid : option jsstring)
  : M TwilioSignatureValidator :=
  let authTokens := match tokens with
                    | Tokens ts => ts
                    | Single t => [t]
                    end in
  if (length authTokens =? 0)%nat
     || existsb (fun token => falsy (Some token)) authTokens
  then throw (Error (js "TWILIO_AUTH_TOKEN must be provided and non-empty"))
  else if falsy sid
  then throw (Error (js "TWILIO_ACCOUNT_SID must be provided"))
  else ret (Validator authTokens (to_str sid)).

(** The string that is signed: the URL, then every parameter name followed
    by its value, the names sorted. *)
Definition signatureString (url : jsstring) (params : object) : jsstring :=
  url ++ fold_left (fun acc key => acc ++ key ++ to_str (prop params key))
                   (sort (keys params)) [].

(** [validateSignature] on a body of strings, where the signature string
    is always built and the only call that can throw is [timingSafeEqual].
    [AnyBody.validateSignature], further down, is the function on any body,
    with the exceptions that building the signature string can raise. *)
Definition validateSignature (signature url : jsstring) (params : object)
    (authToken : jsstring) : M bool :=
  try_catch
    (do expectedSignature <- hmac_sha1_base64 authToken (signatureString url params);
     timingSafeEqual (Base64.decode signature) (Base64.decode expectedSignature))
    (fun error =>
       run emit (ConsoleError (js "Error validating Twilio signature:")
                              (error_message error));
       ret false).

(** ** The middleware *)

Inductive header :=
  | X_Twilio_Signature
  | X_Forwarded_Proto
  | X_Forwarded_Host
  | Host.

(** What the middleware reads of the request. *)
Record request := Request {
  get : header -> option jsstring;
  protocol : jsstring;
  originalUrl : jsstring;
  body : object
}.

(** How the middleware answers: [res.status(s).json({error, message})] or
    [next()]. *)
Inductive reply :=
  | Json (status : Z) (error message : jsstring)
  | Next.

Definition missing_signature : reply :=
  Json 403 (js "Forbidden") (js "Missing Twilio signature header").

Definition invalid_signature : reply :=
  Json 403 (js "Forbidden") (js "Invalid Twilio signature").

(** The full URL the middleware rebuilds. *)
Definition request_url (req : request) : jsstring :=
  let protocol := or_else (get req X_Forwarded_Proto) (Some (protocol req)) in
  let host := or_else (get req X_Forwarded_Host) (get req Host) in
  to_str protocol ++ js "://" ++ to_str host ++ originalUrl req.

Definition middleware (this : TwilioSignatureValidator) (req : request) : M reply :=
  let signature := get req X_Twilio_Signature in
  if falsy signature then
    run emit (ConsoleWarn (js "Webhook validation failed: Missing X-Twilio-Signature header"));
    ret missing_signature
  else
    let url := request_url req in
    do isValid <- some (fun token =>
                          validateSignature (to_str signature) url (body req) token)
                       (authTokens this);
    if negb isValid then
      run emit (ConsoleWarn (js "Webhook validation failed: Invalid signature"));
      ret invalid_signature
    else
      run emit (ConsoleLog (js "Webhook validation successful"));
      ret Next.

(** The signature a sender holding [authToken] puts in the header: the
    expected signature of [validateSignature]. *)
Definition sign (url : jsstring) (params : object) (authToken : jsstring) : jsstring :=
  Base64.encode (Sha1.hmac (utf8 authToken) (utf8 (signatureString url params))).

(** The digests a run computed, in order: the keys they were keyed with. *)
Definition hmac_keys (t : list event) : list jsstring :=
  omap (fun ev => match ev with HmacSha1 key _ => Some key | _ => None end) t.

(** ** Notions used to state the properties *)

(** The digest of a request under a token: what [validateSignature]
    compares the decoded header with. *)
Definition digest_of (url : jsstring) (params : object) (token : jsstring) : bytes :=
  Sha1.hmac (utf8 token) (utf8 (signatureString url params)).

(** The header value decodes to the digest under the token. *)
Definition accepts (signature url : jsstring) (params : object)
    (token : jsstring) : bool :=
  bool_decide (Base64.decode signature = digest_of url params token).

(** The elements a short-circuit search looks at: all up to and including
    the first that is accepted. *)
Fixpoint tried_until {A} (accepted : A -> bool) (l : list A) : list A :=
  match l with
  | [] => []
  | x :: l' => x :: (if accepted x then [] else tried_until accepted l')
  end.

(** Bit [bit] of element [i] inverted. *)
Definition flip_bit (s : list Z) (i : nat) (bit : Z) : list Z :=
  alter (fun c => Z.lxor c (2 ^ bit)) i s.

(** The request with one header replaced. *)
Definition set_header (req : request) (h : header) (v : option jsstring) : request :=
  Request (fun h' => match h, h' with
                     | X_Twilio_Signature, X_Twilio_Signature
                     | X_Forwarded_Proto, X_Forwarded_Proto
                     | X_Forwarded_Host, X_Forwarded_Host
                     | Host, Host => v
                     | _, _ => get req h'
                     end)
          (protocol req) (originalUrl req) (body req).

(** ** A request used in the examples *)

Definition demo_params : object :=
  [(js "From", js "+1"); (js "Body", js "hi")].

Definition demo_request (sig : option jsstring) : request :=
  Request (fun h => match h with
                    | X_Twilio_Signature => sig
                    | Host => Some (js "a.test")
                    | _ => None
                    end)
          (js "https") (js "/sms") demo_params.


(** ** Notions used to reason about the reader *)





(** ** Further notions for the properties of the validator *)

(** A header written with the URL-safe alphabet: minus for plus,
    underscore for slash. *)
Definition url_safe (s : jsstring) : jsstring :=
  map (fun c => if c =? 43 then 45 else if c =? 47 then 95 else c) s.

(** The request carrying [signature] in its signature header. *)
Definition with_signature (req : request) (signature : jsstring) : request :=
  set_header req X_Twilio_Signature (Some signature).

(** The console messages of a run are warnings, or notices of success. *)
Definition is_warn (ev : event) : bool :=
  match ev with ConsoleWarn _ => true | _ => false end.

Definition is_log (ev : event) : bool :=
  match ev with ConsoleLog _ => true | _ => false end.


(** ** The validator on any request body

    The definitions above take the body the way Twilio sends it, names and
    values all strings.  [req.body] can be other things: [express.json()]
    leaves values of any JSON kind in it, and without a body parser it is
    undefined.  The module below is the validator on such bodies; on a body
    of strings it is the validator above (lemmas
    [anybody_validateSignature_strings] and [anybody_middleware_strings]). *)

Module AnyBody.

(** A value of the body, by what [acc + key + value] makes of it: the
    text of a string or the text a number, a boolean, null, an array or an
    ordinary object converts to, or no text at all for a value that has no
    primitive form (an object whose own [toString] is not a function),
    where the concatenation throws. *)
Inductive value :=
  | Converts (text : jsstring)
  | Unconvertible.

(** The own enumerable properties of the body, in the order [Object.keys]
    lists them. *)
Definition dictionary := list (jsstring * value).

Fixpoint prop (o : dictionary) (key : jsstring) : option value :=
  match o with
  | [] => None
  | (k, v) :: o' => if decide (k = key) then Some v else prop o' key
  end.

(** What the middleware reads of the request; the body is [None] when
    [req.body] is undefined. *)
Record request := Request {
  get : header -> option jsstring;
  protocol : jsstring;
  originalUrl : jsstring;
  body : option dictionary
}.

(** [acc + key + params[key]] *)
Definition append (acc key : jsstring) (v : option value) : M jsstring :=
  match v with
  | None => ret (acc ++ key ++ js "undefined")
  | Some (Converts text) => ret (acc ++ key ++ text)
  | Some Unconvertible =>
      throw (TypeError (js "Cannot convert object to primitive value"))
  end.

(** [arr.reduce(f, init)] with a callback that can throw. *)
Fixpoint reduce {A B} (f : B -> A -> M B) (arr : list A) (init : B) : M B :=
  match arr with
  | [] => ret init
  | x :: arr' => do acc <- f init x; reduce f arr' acc
  end.

(** The signature string, or the exception of [Object.keys] on an
    undefined body or of the first value, in the order of the names, that
    cannot be converted. *)
Definition signatureString (url : jsstring) (params : option dictionary)
  : M jsstring :=
  match params with
  | None => throw (TypeError (js "Cannot convert undefined or null to object"))
  | Some o =>
      do pairs <- reduce (fun acc key => append acc key (prop o key))
                         (sort (o.*1)) [];
      ret (url ++ pairs)
  end.

Definition validateSignature (signature url : jsstring)
    (params : option dictionary) (authToken : jsstring) : M bool :=
  try_catch
    (do signatureString <- signatureString url params;
     do expectedSignature <- hmac_sha1_base64 authToken signatureString;
     timingSafeEqual (Base64.decode signature) (Base64.decode expectedSignature))
    (fun error =>
       run emit (ConsoleError (js "Error validating Twilio signature:")
                              (error_message error));
       ret false).

Definition request_url (req : request) : jsstring :=
  let protocol := or_else (get req X_Forwarded_Proto) (Some (protocol req)) in
  let host := or_else (get req X_Forwarded_Host) (get req Host) in
  to_str protocol ++ js "://" ++ to_str host ++ originalUrl req.

Definition middleware (this : TwilioSignatureValidator) (req : request) : M reply :=
  let signature := get req X_Twilio_Signature in
  if falsy signature then
    run emit (ConsoleWarn (js "Webhook validation failed: Missing X-Twilio-Signature header"));
    ret missing_signature
  else
    let url := request_url req in
    do isValid <- some (fun token =>
                          validateSignature (to_str signature) url (body req) token)
                       (authTokens this);
    if negb isValid then
      run emit (ConsoleWarn (js "Webhook validation failed: Invalid signature"));
      ret invalid_signature
    else
      run emit (ConsoleLog (js "Webhook validation successful"));
      ret Next.

End AnyBody.

(** A body of strings among the bodies, and a request with such a body
    among the requests. *)
Definition strings (o : object) : AnyBody.dictionary :=
  (fun kv => (kv.1, AnyBody.Converts kv.2)) <$> o.

Definition of_request (req : request) : AnyBody.request :=
  AnyBody.Request (get req) (protocol req) (originalUrl req)
                  (Some (strings (body req))).

(** A request whose body [express.json()] parsed from an object with one
    member, itself an object whose own toString member is null; and a
    request whose body is undefined. *)
Definition unconvertible_request (sig : option jsstring) : AnyBody.request :=
  AnyBody.Request (fun h => match h with
                            | X_Twilio_Signature => sig
                            | Host => Some (js "a.test")
                            | _ => None
                            end)
                  (js "https") (js "/sms") (Some [(js "a", AnyBody.Unconvertible)]).

Definition bodiless_request (sig : option jsstring) : AnyBody.request :=
  AnyBody.Request (fun h => match h with
                            | X_Twilio_Signature => sig
                            | Host => Some (js "a.test")
                            | _ => None
                            end)
                  (js "https") (js "/sms") None.

(** ** The server (server.js): start-up *)

(** [process.env]: the value of a variable, [undefined] when it is not set. *)
Definition environment := jsstring -> option jsstring.

Definition requiredEnvVars : list jsstring :=
  [js "TWILIO_AUTH_TOKEN"; js "TWILIO_ACCOUNT_SID"].

(** [arr.join(sep)] *)
Fixpoint join (sep : jsstring) (arr : list jsstring) : jsstring :=
  match arr with
  | [] => []
  | [x] => x
  | x :: arr' => x ++ sep ++ join sep arr'
  end.

(** [s.split(sep)] for a separator of one character: the pieces between
    the separators, one more than there are separators. *)
Fixpoint split (sep : Z) (s : jsstring) : list jsstring :=
  match s with
  | [] => [[]]
  | c :: s' =>
      if c =? sep then [] :: split sep s'
      else match split sep s' with
           | piece :: pieces => (c :: piece) :: pieces
           | [] => [[c]]
           end
  end.

(** White space and line terminators, the characters [trim] removes. *)
Definition is_whitespace (c : Z) : bool :=
  ((9 <=? c) && (c <=? 13)) || (c =? 32) || (c =? 0xA0) || (c =? 0x1680)
  || ((0x2000 <=? c) && (c <=? 0x200A)) || (c =? 0x2028) || (c =? 0x2029)
  || (c =? 0x202F) || (c =? 0x205F) || (c =? 0x3000) || (c =? 0xFEFF).

Fixpoint trimStart (s : jsstring) : jsstring :=
  match s with
  | [] => []
  | c :: s' => if is_whitespace c then trimStart s' else s
  end.

Fixpoint trimEnd (s : jsstring) : jsstring :=
  match s with
  | [] => []
  | c :: s' =>
      match trimEnd s' with
      | [] => if is_whitespace c then [] else [c]
      | rest => c :: rest
      end
  end.

(** [s.trim()] *)
Definition trim (s : jsstring) : jsstring := trimEnd (trimStart s).

Definition comma : Z := 44.

(** [process.env.TWILIO_AUTH_TOKEN.split(',').map(token => token.trim())] *)
Definition env_authTokens (value : jsstring) : list jsstring :=
  map trim (split comma value).

(** How the script gets on: [process.exit(code)], or the validator the
    routes are given. *)
Inductive boot :=
  | Exit (code : Z)
  | Ready (twilioValidator : TwilioSignatureValidator).

(** The script up to the construction of the validator.  A [console.error]
    with one argument is recorded with an empty detail. *)
Definition server_start (env : environment) : M boot :=
  let missing := filter (fun varName => falsy (env varName)) requiredEnvVars in
  if (0 <? length missing)%nat then
    run emit (ConsoleError (0x274C :: js " Missing required environment variables:")
                           (join (js ", ") missing));
    run emit (ConsoleError (js "Please create a .env file based on .env.example") []);
    ret (Exit 1)
  else
    let authTokens := env_authTokens (to_str (env (js "TWILIO_AUTH_TOKEN"))) in
    do twilioValidator <-
      constructor (Tokens authTokens) (env (js "TWILIO_ACCOUNT_SID"));
    ret (Ready twilioValidator).

Definition all_whitespace (s : jsstring) : Prop :=
  Forall (fun c => is_whitespace c = true) s.

(** A string without white space at either end. *)
Definition unpadded (s : jsstring) : Prop :=
  match s with
  | [] => True
  | c :: _ => is_whitespace c = false
  end
  /\ match last s with
     | None => True
     | Some c => is_whitespace c = false
     end.

(** ** The server: the routes behind the middleware *)

(** What a route sends: [res.status(s).json({error, message})], or
    [res.type(t)] and [res.send(body)]. *)
Inductive response :=
  | ResJson (status : Z) (error message : jsstring)
  | ResSend (type body : jsstring).

(** [app.post(path, twilioValidator.middleware(), handler)]: the handler
    runs when the middleware calls [next()]. *)
Definition guarded (this : TwilioSignatureValidator)
    (handler : request -> M response) (req : request) : M response :=
  do r <- middleware this req;
  match r with
  | Json status error message => ret (ResJson status error message)
  | Next => handler req
  end.

Definition quote : jsstring := [34].
Definition newline : jsstring := [10].

Definition xml_declaration : jsstring :=
  js "<?xml version=" ++ quote ++ js "1.0" ++ quote
  ++ js " encoding=" ++ quote ++ js "UTF-8" ++ quote ++ js "?>".

(** The handler of [/sms]. *)
Definition sms (req : request) : M response :=
  run emit (ConsoleLog (0xD83D :: 0xDCF1 :: js " Valid SMS webhook received:"));
  ret (ResSend (js "text/xml")
         (xml_declaration ++ newline
          ++ js "<Response>" ++ newline
          ++ js "  <Message>Thanks for your message! We received: "
          ++ quote ++ to_str (prop (body req) (js "Body")) ++ quote
          ++ js "</Message>" ++ newline
          ++ js "</Response>")).

(** The handler of [/voice]. *)
Definition voice (req : request) : M response :=
  run emit (ConsoleLog (0xD83D :: 0xDCDE :: js " Valid voice webhook received:"));
  ret (ResSend (js "text/xml")
         (xml_declaration ++ newline
          ++ js "<Response>" ++ newline
          ++ js "  <Say>Hello! This is a secure Twilio webhook demo.</Say>" ++ newline
          ++ js "</Response>")).

(** ** An environment used in the examples *)

Definition demo_env : environment :=
  fun varName =>
    if bool_decide (varName = js "TWILIO_AUTH_TOKEN")
    then Some (js "old_token_still_valid, new_token_primary")
    else if bool_decide (varName = js "TWILIO_ACCOUNT_SID") then Some (js "AC1")
    else None.


(** ** A message with markup in its body, signed *)

Definition markup_params : object :=
  [(js "From", js "+1");
   (js "Body", js "</Message><Redirect>https://b.test/</Redirect><Message>")].

Definition markup_request : request :=
  Request (fun h => match h with
                    | X_Twilio_Signature =>
                        Some (sign (js "https://a.test/sms") markup_params (js "tok"))
                    | Host => Some (js "a.test")
                    | _ => None
                    end)
          (js "https") (js "/sms") markup_params.
(** * Properties *)

(** ** Test vectors for the runtime models *)

Example sha1_abc :
  hex (Sha1.sha1 (utf8 (js "abc"))) = js "a9993e364706816aba3e25717850c26c9cd0d89d".
Proof. vm_compute. reflexivity. Qed.

Example sha1_two_blocks :
  hex (Sha1.sha1 (utf8 (js "abcdbcdecdefdefgefghfghighijhijkijkljklmklmnlmnomnopnopq")))
  = js "84983e441c3bd26ebaae4aa1f95129e5e54670f1".
Proof. vm_compute. reflexivity. Qed.

Example hmac_rfc2202_2 :
  hex (Sha1.hmac (utf8 (js "Jefe")) (utf8 (js "what do ya want for nothing?")))
  = js "effcdf6ae5eb2fa2d27416d5f184df9c259a7c79".
Proof. vm_compute. reflexivity. Qed.

Example hmac_rfc2202_6 :
  hex (Sha1.hmac (repeat 0xAA 80)
         (utf8 (js "Test Using Larger Than Block-Size Key - Hash Key First")))
  = js "aa4ae5e15272d00e95705637ce8a3b55ed402112".
Proof. vm_compute. reflexivity. Qed.

Example base64_foobar :
  Base64.encode (utf8 (js "foobar")) = js "Zm9vYmFy"
  /\ Base64.encode (utf8 (js "fooba")) = js "Zm9vYmE="
  /\ Base64.encode (utf8 (js "foob")) = js "Zm9vYg==".
Proof. vm_compute. auto. Qed.

Example base64_lenient :
  Base64.decode (js "Zm 9v!Yg==") = utf8 (js "foob")
  /\ Base64.decode (js "Zm9vYh") = utf8 (js "foob")
  /\ Base64.decode (js "Zm9v=Yg==") = utf8 (js "foo")
  /\ Base64.well_formed (js "Zm 9v!Yg==") = false
  /\ Base64.well_formed (js "Zm9vYg==") = true.
Proof. vm_compute. auto. Qed.

Example demo_url : request_url (demo_request None) = js "https://a.test/sms".
Proof. reflexivity. Qed.

Example demo_sign :
  sign (js "https://a.test/sms") demo_params (js "tok")
  = js "s4/5u1M6Db8h+ppsRMUJ/73uD8A=".
Proof. vm_compute. reflexivity. Qed.

(** ** SHA-1 and HMAC give twenty bytes *)

Lemma be32_range w : Forall byte_range (Sha1.be32 w).
Proof.
  unfold Sha1.be32, byte_range.
  repeat constructor; apply Z.mod_pos_bound; lia.
Qed.

Lemma sha1_length m : length (Sha1.sha1 m) = 20%nat.
Proof. reflexivity. Qed.

Lemma sha1_range m : Forall byte_range (Sha1.sha1 m).
Proof.
  unfold Sha1.sha1, Sha1.digest.
  repeat (apply Forall_app; split); apply be32_range.
Qed.

Lemma hmac_length key msg : length (Sha1.hmac key msg) = 20%nat.
Proof. apply sha1_length. Qed.

Lemma hmac_range key msg : Forall byte_range (Sha1.hmac key msg).
Proof. apply sha1_range. Qed.

(** ** Base64: reading back what was written *)

Lemma below_forall (P : Z -> bool) (n : Z) :
  forallb P (seqZ 0 n) = true -> forall v, 0 <= v < n -> P v = true.
Proof.
  intros H v Hv.
  apply Is_true_true, forallb_True in H.
  rewrite Forall_forall in H.
  apply Is_true_true, H, elem_of_seqZ. lia.
Qed.

Lemma bytes_forall (P : Z -> bool) :
  forallb P (seqZ 0 256) = true -> forall b, byte_range b -> P b = true.
Proof. intros H b Hb. by apply (below_forall P 256). Qed.

Lemma bytes_forall2 (P : Z -> Z -> bool) :
  forallb (fun a => forallb (P a) (seqZ 0 256)) (seqZ 0 256) = true ->
  forall a b, byte_range a -> byte_range b -> P a b = true.
Proof.
  intros H a b Ha Hb.
  apply (bytes_forall (P a)); [|done].
  by apply (bytes_forall (fun a => forallb (P a) (seqZ 0 256))).
Qed.

Ltac by_bytes1 b :=
  apply Z.eqb_eq;
  revert b; apply bytes_forall; vm_compute; reflexivity.

Ltac by_bytes2 a b :=
  apply Z.eqb_eq;
  revert a b; apply bytes_forall2; vm_compute; reflexivity.

Import Base64.

Lemma unbase64_alphabet v : sextet v -> unbase64 (alphabet v) = Some v.
Proof.
  intros Hv.
  assert (match unbase64 (alphabet v) with
          | Some u => u =? v
          | None => false
          end = true) as H.
  { revert v Hv. apply below_forall. vm_compute. reflexivity. }
  destruct (unbase64 (alphabet v)) as [u|]; [|discriminate].
  apply Z.eqb_eq in H. by subst.
Qed.

Ltac sextet_by_bytes :=
  unfold sextet; intros;
  match goal with
  | |- 0 <= ?s < 64 =>
      cut (((0 <=? s) && (s <? 64))%bool = true); [intros ?%andb_prop; lia|]
  end.

Lemma sextet0_range b0 : byte_range b0 -> sextet (sextet0 b0).
Proof. sextet_by_bytes. revert b0 H. apply bytes_forall. vm_compute. reflexivity. Qed.

Lemma sextet1_range b0 b1 : byte_range b0 -> byte_range b1 -> sextet (sextet1 b0 b1).
Proof. sextet_by_bytes. revert b0 b1 H H0. apply bytes_forall2. vm_compute. reflexivity. Qed.

Lemma sextet2_range b1 b2 : byte_range b1 -> byte_range b2 -> sextet (sextet2 b1 b2).
Proof. sextet_by_bytes. revert b1 b2 H H0. apply bytes_forall2. vm_compute. reflexivity. Qed.

Lemma sextet3_range b2 : byte_range b2 -> sextet (sextet3 b2).
Proof. sextet_by_bytes. revert b2 H. apply bytes_forall. vm_compute. reflexivity. Qed.

Lemma sextet1_last_range b0 : byte_range b0 -> sextet (Z.shiftl (Z.land b0 3) 4).
Proof. sextet_by_bytes. revert b0 H. apply bytes_forall. vm_compute. reflexivity. Qed.

Lemma sextet2_last_range b1 : byte_range b1 -> sextet (Z.shiftl (Z.land b1 15) 2).
Proof. sextet_by_bytes. revert b1 H. apply bytes_forall. vm_compute. reflexivity. Qed.

(** The three bytes of a group come back from its four values. *)
Lemma byte0_sextets b0 b1 :
  byte_range b0 -> byte_range b1 -> byte0 (sextet0 b0) (sextet1 b0 b1) = b0.
Proof. intros H0 H1. apply Z.eqb_eq. revert b0 b1 H0 H1. apply bytes_forall2. vm_compute. reflexivity. Qed.

Lemma byte0_sextets_last b0 :
  byte_range b0 -> byte0 (sextet0 b0) (Z.shiftl (Z.land b0 3) 4) = b0.
Proof. intros H0. apply Z.eqb_eq. revert b0 H0. apply bytes_forall. vm_compute. reflexivity. Qed.

Lemma sextet1_low b0 b1 :
  byte_range b0 -> byte_range b1 -> Z.land (sextet1 b0 b1) 0x0F = Z.shiftr b1 4.
Proof. intros H0 H1. apply Z.eqb_eq. revert b0 b1 H0 H1. apply bytes_forall2. vm_compute. reflexivity. Qed.

Lemma byte1_high b1 b2 :
  byte_range b1 -> byte_range b2 ->
  Z.lor (Z.shiftl (Z.shiftr b1 4) 4) (Z.shiftr (Z.land (sextet2 b1 b2) 0x3C) 2) = b1.
Proof. intros H1 H2. apply Z.eqb_eq. revert b1 b2 H1 H2. apply bytes_forall2. vm_compute. reflexivity. Qed.

Lemma byte1_high_last b1 :
  byte_range b1 ->
  Z.lor (Z.shiftl (Z.shiftr b1 4) 4)
        (Z.shiftr (Z.land (Z.shiftl (Z.land b1 15) 2) 0x3C) 2) = b1.
Proof. intros H1. apply Z.eqb_eq. revert b1 H1. apply bytes_forall. vm_compute. reflexivity. Qed.

Lemma byte1_sextets b0 b1 b2 :
  byte_range b0 -> byte_range b1 -> byte_range b2 ->
  byte1 (sextet1 b0 b1) (sextet2 b1 b2) = b1.
Proof. intros. unfold byte1. rewrite sextet1_low by done. by apply byte1_high. Qed.

Lemma byte1_sextets_last b0 b1 :
  byte_range b0 -> byte_range b1 ->
  byte1 (sextet1 b0 b1) (Z.shiftl (Z.land b1 15) 2) = b1.
Proof. intros. unfold byte1. rewrite sextet1_low by done. by apply byte1_high_last. Qed.

Lemma byte2_sextets b1 b2 :
  byte_range b1 -> byte_range b2 -> byte2 (sextet2 b1 b2) (sextet3 b2) = b2.
Proof. intros H1 H2. apply Z.eqb_eq. revert b1 b2 H1 H2. apply bytes_forall2. vm_compute. reflexivity. Qed.

(** One step of the reader on a character of the alphabet. *)
Lemma decode_from_alphabet p v rest :
  sextet v ->
  decode_from p (alphabet v :: rest) =
  match p with
  | P0 => decode_from (P1 v) rest
  | P1 hi => byte0 hi v :: decode_from (P2 v) rest
  | P2 hi => byte1 hi v :: decode_from (P3 v) rest
  | P3 hi => byte2 hi v :: decode_from P0 rest
  end.
Proof. intros Hv. cbn [decode_from]. by rewrite unbase64_alphabet. Qed.

Lemma decode_from_pad p rest : decode_from p (pad_char :: rest) = [].
Proof. reflexivity. Qed.

Lemma decode_from_skip p c rest :
  unbase64 c = None -> c mod 256 <> pad_char ->
  decode_from p (c :: rest) = decode_from p rest.
Proof.
  intros Hc Hp. cbn [decode_from]. rewrite Hc.
  by destruct (Z.eqb_spec (c mod 256) pad_char).
Qed.

Lemma decode_encode_bounded (n : nat) (bs : bytes) :
  (length bs <= n)%nat -> Forall byte_range bs -> decode (encode bs) = bs.
Proof.
  unfold decode. revert bs.
  induction n as [|n IH]; intros bs Hlen Hbs.
  { destruct bs; [done | simpl in Hlen; lia]. }
  destruct bs as [|b0 [|b1 [|b2 rest]]]; [done|..].
  - apply Forall_cons in Hbs as [H0 _]. cbn [encode].
    rewrite decode_from_alphabet by by apply sextet0_range.
    rewrite decode_from_alphabet by by apply sextet1_last_range.
    by rewrite decode_from_pad, byte0_sextets_last.
  - apply Forall_cons in Hbs as [H0 [H1 _]%Forall_cons]. cbn [encode].
    rewrite decode_from_alphabet by by apply sextet0_range.
    rewrite decode_from_alphabet by by apply sextet1_range.
    rewrite decode_from_alphabet by by apply sextet2_last_range.
    by rewrite decode_from_pad, byte0_sextets, byte1_sextets_last.
  - apply Forall_cons in Hbs as [H0 [H1 [H2 Hrest]%Forall_cons]%Forall_cons].
    cbn [encode].
    rewrite decode_from_alphabet by by apply sextet0_range.
    rewrite decode_from_alphabet by by apply sextet1_range.
    rewrite decode_from_alphabet by by apply sextet2_range.
    rewrite decode_from_alphabet by by apply sextet3_range.
    rewrite byte0_sextets, byte1_sextets, byte2_sextets by done.
    rewrite IH; [done | simpl in Hlen; lia | done].
Qed.

Lemma decode_encode (bs : bytes) :
  Forall byte_range bs -> decode (encode bs) = bs.
Proof. by apply (decode_encode_bounded (length bs)). Qed.

(** ** The default sort order *)

Lemma codeunits_le_refl a : codeunits_le a a = true.
Proof.
  induction a as [|x a IH]; [done|]. cbn [codeunits_le].
  rewrite Z.eqb_refl, IH. by rewrite orb_true_r.
Qed.

Lemma codeunits_le_total a b : codeunits_le a b = true \/ codeunits_le b a = true.
Proof.
  revert b. induction a as [|x a IH]; intros [|y b]; cbn [codeunits_le]; auto.
  destruct (Z.ltb_spec x y), (Z.ltb_spec y x), (Z.eqb_spec x y), (Z.eqb_spec y x);
    cbn; auto; lia.
Qed.

Lemma codeunits_le_antisym a b :
  codeunits_le a b = true -> codeunits_le b a = true -> a = b.
Proof.
  revert b. induction a as [|x a IH]; intros [|y b]; cbn [codeunits_le]; try done.
  destruct (Z.ltb_spec x y), (Z.ltb_spec y x), (Z.eqb_spec x y), (Z.eqb_spec y x);
    cbn; try done; try lia.
  intros Hab Hba. subst. f_equal. by apply IH.
Qed.

Lemma codeunits_le_trans a b c :
  codeunits_le a b = true -> codeunits_le b c = true -> codeunits_le a c = true.
Proof.
  revert b c. induction a as [|x a IH]; intros [|y b] [|z c]; cbn [codeunits_le]; try done.
  destruct (Z.ltb_spec x y), (Z.ltb_spec y z), (Z.ltb_spec x z),
    (Z.eqb_spec x y), (Z.eqb_spec y z), (Z.eqb_spec x z);
    cbn; try done; try lia.
  apply IH.
Qed.

#[local] Instance str_le_total : Total str_le.
Proof.
  intros a b. unfold str_le.
  destruct (codeunits_le_total a b) as [H|H]; rewrite H; cbn; auto.
Qed.

#[local] Instance str_le_trans : Transitive str_le.
Proof.
  intros a b c. unfold str_le. intros Hab%Is_true_true Hbc%Is_true_true.
  apply Is_true_true. by eapply codeunits_le_trans.
Qed.

#[local] Instance str_le_antisym : AntiSymm (=) str_le.
Proof.
  intros a b. unfold str_le. intros Hab%Is_true_true Hba%Is_true_true.
  by apply codeunits_le_antisym.
Qed.

Lemma sort_sorted l : Sorted str_le (sort l).
Proof. apply Sorted_merge_sort, _. Qed.

Lemma sort_Permutation l : sort l ≡ₚ l.
Proof. apply merge_sort_Permutation. Qed.

(** The sorted array is a function of the elements, not of their order. *)
Lemma sort_order_irrelevant l1 l2 : l1 ≡ₚ l2 -> sort l1 = sort l2.
Proof.
  intros H. apply (Sorted_unique str_le); try apply sort_sorted.
  by rewrite !sort_Permutation.
Qed.

(** ** Property access *)

Lemma prop_elem_of (o : object) k v :
  NoDup (keys o) -> (k, v) ∈ o -> prop o k = Some v.
Proof.
  unfold keys. induction o as [|[k' v'] o IH]; intros Hnd Hin.
  { by apply elem_of_nil in Hin. }
  cbn in Hnd. apply NoDup_cons in Hnd as [Hk' Hnd].
  cbn [prop]. apply elem_of_cons in Hin as [Heq|Hin].
  - injection Heq as -> ->. by rewrite decide_True.
  - rewrite decide_False; [by apply IH|].
    intros ->. apply Hk'. apply list_elem_of_fmap. by exists (k, v).
Qed.

Lemma prop_None (o : object) k : k ∉ keys o -> prop o k = None.
Proof.
  unfold keys. induction o as [|[k' v'] o IH]; intros Hk; [done|].
  cbn in Hk. apply not_elem_of_cons in Hk as [Hne Hk].
  cbn [prop]. rewrite decide_False by done. by apply IH.
Qed.

Lemma prop_elem_of_keys (o : object) k : k ∈ keys o -> exists v, (k, v) ∈ o.
Proof.
  unfold keys. intros ([k' v] & -> & Hin)%list_elem_of_fmap. by exists v.
Qed.

Lemma prop_order_irrelevant (o1 o2 : object) k :
  NoDup (keys o1) -> o1 ≡ₚ o2 -> prop o1 k = prop o2 k.
Proof.
  intros Hnd Hperm.
  assert (NoDup (keys o2)) as Hnd2 by (unfold keys in *; by rewrite <- Hperm).
  destruct (decide (k ∈ keys o1)) as [Hin|Hnin].
  - destruct (prop_elem_of_keys _ _ Hin) as [v Hv].
    rewrite (prop_elem_of o1 k v), (prop_elem_of o2 k v); try done.
    by rewrite <- Hperm.
  - rewrite !prop_None; try done. unfold keys in *. by rewrite <- Hperm.
Qed.

(** ** The canonical string *)

(** C4: two bodies holding the same name/value pairs, listed in different
    orders, give the same signature string and so the same bytes to hash. *)
Theorem signatureString_order_irrelevant (url : jsstring) (p1 p2 : object) :
  NoDup (keys p1) -> p1 ≡ₚ p2 ->
  signatureString url p1 = signatureString url p2
  /\ utf8 (signatureString url p1) = utf8 (signatureString url p2).
Proof.
  intros Hnd Hperm.
  assert (signatureString url p1 = signatureString url p2) as Heq.
  { unfold signatureString. f_equal.
    rewrite (sort_order_irrelevant (keys p1) (keys p2))
      by (unfold keys; by rewrite Hperm).
    generalize (@nil Z) as acc.
    induction (sort (keys p2)) as [|key l IH]; intros acc; [done|].
    cbn [fold_left]. rewrite (prop_order_irrelevant p1 p2) by done. apply IH. }
  by rewrite Heq.
Qed.

Lemma signatureString_order_irrelevant_witness :
  signatureString (js "https://a.test/sms") demo_params
  = signatureString (js "https://a.test/sms") (reverse demo_params)
  /\ utf8 (signatureString (js "https://a.test/sms") demo_params)
     = utf8 (signatureString (js "https://a.test/sms") (reverse demo_params)).
Proof.
  apply signatureString_order_irrelevant.
  - apply (bool_decide_unpack _). vm_compute. exact I.
  - apply Permutation_swap.
Defined.

(** C8: the documented example.  The names are sorted, each name is
    followed at once by its value, and nothing separates the pairs. *)
Theorem signatureString_example :
  sort (keys [(js "From", js "+1"); (js "Body", js "hi")]) = [js "Body"; js "From"]
  /\ signatureString (js "https://a.test/sms") [(js "From", js "+1"); (js "Body", js "hi")]
     = js "https://a.test/smsBodyhiFrom+1"
  /\ utf8 (signatureString (js "https://a.test/sms")
             [(js "From", js "+1"); (js "Body", js "hi")])
     = utf8 (js "https://a.test/smsBodyhiFrom+1").
Proof. vm_compute. auto. Qed.

(** C9: with no parameters the signature string is the URL itself. *)
Theorem signatureString_no_params (url : jsstring) :
  signatureString url [] = url
  /\ utf8 (signatureString url []) = utf8 url.
Proof.
  assert (signatureString url [] = url) as H.
  { unfold signatureString. cbn. apply app_nil_r. }
  by rewrite H.
Qed.

(** ** One token *)

Lemma hmac_keys_app t1 t2 : hmac_keys (t1 ++ t2) = hmac_keys t1 ++ hmac_keys t2.
Proof. apply omap_app. Qed.

Lemma digest_of_length url params token : length (digest_of url params token) = 20%nat.
Proof. apply hmac_length. Qed.

Lemma digest_of_range url params token : Forall byte_range (digest_of url params token).
Proof. apply hmac_range. Qed.

Lemma sign_digest_of url params token :
  sign url params token = encode (digest_of url params token).
Proof. reflexivity. Qed.

Lemma decode_sign url params token :
  decode (sign url params token) = digest_of url params token.
Proof. rewrite sign_digest_of. apply decode_encode, digest_of_range. Qed.

(** What [validateSignature] returns and does: it never throws, it answers
    whether the decoded header is the digest, it computes one digest, and
    it logs an error exactly when the decoded header is not twenty bytes
    long. *)
Lemma validateSignature_spec signature url params token :
  validateSignature signature url params token =
  (Normal (accepts signature url params token),
   HmacSha1 token (signatureString url params)
   :: if (length (decode signature) =? 20)%nat then []
      else [ConsoleError (js "Error validating Twilio signature:")
                         (js "Input buffers must have the same byte length")]).
Proof.
  unfold validateSignature, hmac_sha1_base64, accepts.
  fold (sign url params token).
  pose proof (decode_sign url params token) as Hdec.
  pose proof (digest_of_length url params token) as Hlen.
  unfold bind at 2. cbv [emit ret]. cbn [app]. unfold bind, timingSafeEqual.
  rewrite Hdec, Hlen. clear Hdec.
  generalize dependent (digest_of url params token). intros d Hlen.
  generalize (signatureString url params). intros s.
  destruct (Nat.eqb_spec (length (decode signature)) 20) as [Heq|Hne].
  - reflexivity.
  - cbv [try_catch throw bind emit ret error_message]. cbn [app].
    rewrite bool_decide_eq_false_2; [reflexivity|].
    intros H. by rewrite H in Hne.
Qed.

Lemma validateSignature_result signature url params token :
  (validateSignature signature url params token).1
  = Normal (accepts signature url params token).
Proof. by rewrite validateSignature_spec. Qed.

Lemma validateSignature_hmac_keys signature url params token :
  hmac_keys (validateSignature signature url params token).2 = [token].
Proof. rewrite validateSignature_spec. cbn. by destruct (_ =? _)%nat. Qed.

(** ** Every token in turn *)

Section tokens.
Context (signature url : jsstring) (params : object).

Let check (token : jsstring) : M bool :=
  validateSignature signature url params token.

Lemma some_cons token tokens :
  some check (token :: tokens) =
  if accepts signature url params token
  then (Normal true, (check token).2)
  else ((some check tokens).1, (check token).2 ++ (some check tokens).2).
Proof.
  cbn [some]. unfold bind.
  destruct (check token) as [c t] eqn:Hc.
  pose proof (validateSignature_result signature url params token) as Hr.
  fold (check token) in Hr. rewrite Hc in Hr. cbn in Hr. subst c. cbn.
  destruct (accepts signature url params token).
  - cbn. by rewrite app_nil_r.
  - by destruct (some check tokens).
Qed.

Lemma some_result tokens :
  (some check tokens).1 = Normal (existsb (accepts signature url params) tokens).
Proof.
  induction tokens as [|token tokens IH]; [done|].
  rewrite some_cons. cbn [existsb].
  by destruct (accepts signature url params token).
Qed.

Lemma some_hmac_keys tokens :
  hmac_keys (some check tokens).2
  = tried_until (accepts signature url params) tokens.
Proof.
  induction tokens as [|token tokens IH]; [done|].
  rewrite some_cons. cbn [tried_until].
  destruct (accepts signature url params token); cbn [snd].
  - apply validateSignature_hmac_keys.
  - rewrite hmac_keys_app, IH. unfold check.
    by rewrite validateSignature_hmac_keys.
Qed.
End tokens.

(** ** The middleware *)

Lemma falsy_nonempty (s : jsstring) : s <> [] -> falsy (Some s) = false.
Proof. by destruct s. Qed.

Lemma middleware_missing this req :
  falsy (get req X_Twilio_Signature) = true ->
  middleware this req =
  (Normal missing_signature,
   [ConsoleWarn (js "Webhook validation failed: Missing X-Twilio-Signature header")]).
Proof. intros H. unfold middleware. by rewrite H. Qed.

(** With a header the answer is decided by the tokens alone: [next()] when
    the decoded header is the digest under one of them, the 403 for an
    invalid signature otherwise; digests are computed for the tokens in
    order, up to the first that is accepted. *)
Lemma middleware_present this req signature :
  get req X_Twilio_Signature = Some signature -> signature <> [] ->
  (middleware this req).1 =
    Normal (if existsb (accepts signature (request_url req) (body req)) (authTokens this)
            then Next else invalid_signature)
  /\ hmac_keys (middleware this req).2 =
     tried_until (accepts signature (request_url req) (body req)) (authTokens this).
Proof.
  intros Hget Hne. unfold middleware.
  rewrite Hget, (falsy_nonempty _ Hne). cbn [to_str].
  pose proof (some_result signature (request_url req) (body req) (authTokens this)) as Hr.
  pose proof (some_hmac_keys signature (request_url req) (body req) (authTokens this)) as Hk.
  cbv zeta in Hr, Hk.
  destruct (some _ (authTokens this)) as [c t].
  cbn [fst snd] in Hr, Hk. subst c. rewrite <- Hk.
  generalize (existsb (accepts signature (request_url req) (body req)) (authTokens this)).
  intros [|]; cbv [bind emit ret negb]; cbn [fst snd];
    by rewrite hmac_keys_app, app_nil_r.
Qed.

Lemma sign_nonempty url params token : sign url params token <> [].
Proof.
  rewrite sign_digest_of.
  pose proof (digest_of_length url params token) as Hlen.
  destruct (digest_of url params token) as [|b0 [|b1 [|b2 d]]]; done.
Qed.

Lemma accepts_sign url params token :
  accepts (sign url params token) url params token = true.
Proof. unfold accepts. by rewrite decode_sign, bool_decide_eq_true_2. Qed.

(** C1: a request signed with any token of the validator passes: the
    middleware calls [next()]. *)
Theorem signed_request_accepted this req token :
  token ∈ authTokens this ->
  get req X_Twilio_Signature = Some (sign (request_url req) (body req) token) ->
  (middleware this req).1 = Normal Next.
Proof.
  intros Hin Hget.
  destruct (middleware_present this req _ Hget (sign_nonempty _ _ _)) as [-> _].
  assert (existsb (accepts (sign (request_url req) (body req) token)
                     (request_url req) (body req)) (authTokens this) = true) as ->;
    [|done].
  apply existsb_exists. exists token. split; [by apply list_elem_of_In|].
  apply accepts_sign.
Qed.

Lemma signed_request_accepted_witness :
  (middleware (Validator [js "old"; js "tok"] (js "AC1"))
     (demo_request (Some (sign (js "https://a.test/sms") demo_params (js "tok"))))).1
  = Normal Next.
Proof.
  apply (signed_request_accepted _ _ (js "tok")).
  - apply (bool_decide_unpack _). vm_compute. exact I.
  - reflexivity.
Defined.

(** C3: without the header the middleware answers at once with the 403 for
    a missing signature, whatever tokens the validator holds; the only
    thing it does is log the warning, and no digest is computed. *)
Theorem missing_header_rejected this req :
  get req X_Twilio_Signature = None ->
  middleware this req =
    (Normal missing_signature,
     [ConsoleWarn (js "Webhook validation failed: Missing X-Twilio-Signature header")])
  /\ hmac_keys (middleware this req).2 = [].
Proof.
  intros Hget.
  rewrite middleware_missing by by rewrite Hget.
  done.
Qed.

Lemma missing_header_rejected_witness :
  middleware (Validator [js "old"; js "tok"] (js "AC1")) (demo_request None) =
    (Normal missing_signature,
     [ConsoleWarn (js "Webhook validation failed: Missing X-Twilio-Signature header")])
  /\ hmac_keys (middleware (Validator [js "old"; js "tok"] (js "AC1"))
                  (demo_request None)).2 = [].
Proof. apply missing_header_rejected. reflexivity. Defined.

(** C10: a header that is present but empty is treated exactly as a
    missing one: same answer, same log, no digest. *)
Theorem empty_header_is_missing this req :
  get req X_Twilio_Signature = Some [] ->
  middleware this req =
    (Normal missing_signature,
     [ConsoleWarn (js "Webhook validation failed: Missing X-Twilio-Signature header")])
  /\ middleware this req = middleware this (set_header req X_Twilio_Signature None).
Proof.
  intros Hget.
  rewrite !middleware_missing; [done|done|].
  by rewrite Hget.
Qed.

Lemma empty_header_is_missing_witness :
  middleware (Validator [js "tok"] (js "AC1")) (demo_request (Some [])) =
    (Normal missing_signature,
     [ConsoleWarn (js "Webhook validation failed: Missing X-Twilio-Signature header")])
  /\ middleware (Validator [js "tok"] (js "AC1")) (demo_request (Some []))
     = middleware (Validator [js "tok"] (js "AC1"))
         (set_header (demo_request (Some [])) X_Twilio_Signature None).
Proof. apply empty_header_is_missing. reflexivity. Defined.

(** C7: neither [validateSignature] nor the middleware throws, whatever
    the header, the URL, the body and the tokens: the first always returns
    a boolean, the second always answers with one of its three replies. *)
Theorem validation_never_throws this req signature url params token :
  (exists b t, validateSignature signature url params token = (Normal b, t))
  /\ (exists r t, middleware this req = (Normal r, t)
        /\ (r = Next \/ r = missing_signature \/ r = invalid_signature)).
Proof.
  split.
  { rewrite validateSignature_spec. eauto. }
  destruct (falsy (get req X_Twilio_Signature)) eqn:Hf.
  { rewrite middleware_missing by done. eauto 6. }
  destruct (get req X_Twilio_Signature) as [[|c s]|] eqn:Hget; try done.
  destruct (middleware_present this req (c :: s) Hget) as [Hr _]; [done|].
  destruct (middleware this req) as [r t]. cbn [fst] in Hr. subst r.
  destruct (existsb _ _); eauto 6.
Qed.

(** The exception that is caught: a header of three characters decodes to
    two bytes, [timingSafeEqual] refuses buffers of two and twenty bytes,
    and [validateSignature] logs the error and returns false. *)
Example validateSignature_catches :
  validateSignature (js "abc") (js "https://a.test/sms") demo_params (js "tok")
  = (Normal false,
     [HmacSha1 (js "tok") (js "https://a.test/smsBodyhiFrom+1");
      ConsoleError (js "Error validating Twilio signature:")
                   (js "Input buffers must have the same byte length")]).
Proof. vm_compute. reflexivity. Qed.

(** ** Headers that are not well-formed base64 *)

Lemma accepts_length signature url params token :
  accepts signature url params token = true -> length (decode signature) = 20%nat.
Proof.
  unfold accepts. intros H%bool_decide_eq_true_1.
  rewrite H. apply digest_of_length.
Qed.






(** A header with no character of the alphabet at all: the answer is the
    403 for an invalid signature, and again a digest was computed. *)
Example undecodable_header_invalid :
  let this := Validator [js "tok"] (js "AC1") in
  let req := demo_request (Some (js "!!!!")) in
  (middleware this req).1 = Normal invalid_signature
  /\ hmac_keys (middleware this req).2 = [js "tok"].
Proof. vm_compute. auto. Qed.

(** ** Changing one bit *)

Lemma flip_bit_length s i bit : length (flip_bit s i bit) = length s.
Proof. apply length_alter. Qed.

Lemma lxor_pow2_neq c bit : 0 <= bit -> Z.lxor c (2 ^ bit) <> c.
Proof.
  intros Hbit H.
  assert (Z.lxor c (Z.lxor c (2 ^ bit)) = 0) as H0 by (rewrite H; apply Z.lxor_nilpotent).
  rewrite <- Z.lxor_assoc, Z.lxor_nilpotent, Z.lxor_0_l in H0.
  pose proof (Z.pow_pos_nonneg 2 bit). lia.
Qed.

Lemma flip_bit_neq s i bit : (i < length s)%nat -> 0 <= bit -> flip_bit s i bit <> s.
Proof.
  unfold flip_bit. intros Hi Hbit H.
  destruct (lookup_lt_is_Some_2 s i Hi) as [c Hc].
  assert (alter (fun c => Z.lxor c (2 ^ bit)) i s !! i = Some c) as Hc'
    by by rewrite H.
  rewrite list_lookup_alter_eq, Hc in Hc'. cbn in Hc'.
  injection Hc' as Hc'. by apply lxor_pow2_neq in Hc'.
Qed.

Lemma lxor_pow2_range c bit : byte_range c -> 0 <= bit < 8 -> byte_range (Z.lxor c (2 ^ bit)).
Proof.
  intros Hc Hbit. unfold byte_range.
  cut (((0 <=? Z.lxor c (2 ^ bit)) && (Z.lxor c (2 ^ bit) <? 256))%bool = true).
  { intros ?%andb_prop. lia. }
  revert c Hc. apply bytes_forall.
  revert bit Hbit. apply below_forall. vm_compute. reflexivity.
Qed.

Lemma flip_bit_range s i bit :
  Forall byte_range s -> 0 <= bit < 8 -> Forall byte_range (flip_bit s i bit).
Proof.
  intros Hs Hbit. unfold flip_bit. apply Forall_alter; [done|].
  intros c _ Hc. by apply lxor_pow2_range.
Qed.

Lemma encode_nonempty bs : bs <> [] -> encode bs <> [].
Proof. by destruct bs as [|b0 [|b1 [|b2 rest]]]. Qed.

Lemma request_url_set_signature req v :
  request_url (set_header req X_Twilio_Signature v) = request_url req.
Proof. reflexivity. Qed.

(** A signature re-encoded after one bit of its decoded bytes was inverted
    is refused by every token that accepted it. *)
Lemma accepts_flipped signature url params token i bit :
  accepts signature url params token = true ->
  (i < 20)%nat -> 0 <= bit < 8 ->
  accepts (encode (flip_bit (decode signature) i bit)) url params token = false.
Proof.
  unfold accepts. intros H%bool_decide_eq_true_1 Hi Hbit.
  apply bool_decide_eq_false_2. rewrite H.
  rewrite decode_encode by (apply flip_bit_range; [apply digest_of_range|done]).
  apply flip_bit_neq; [|lia]. by rewrite digest_of_length.
Qed.

(** C5, as the code has it: take a header the middleware lets through and
    invert one bit of the twenty bytes it decodes to.  The re-encoded
    signature is refused by every token that accepted the original, and a
    validator with a single token answers with the 403 for an invalid
    signature. *)
Theorem flipped_digest_rejected this req signature i bit :
  get req X_Twilio_Signature = Some signature ->
  (middleware this req).1 = Normal Next ->
  (i < 20)%nat -> 0 <= bit < 8 ->
  let flipped := encode (flip_bit (decode signature) i bit) in
  (forall token,
      token ∈ authTokens this ->
      (validateSignature signature (request_url req) (body req) token).1 = Normal true ->
      (validateSignature flipped (request_url req) (body req) token).1 = Normal false)
  /\ (forall token,
        authTokens this = [token] ->
        (middleware this (set_header req X_Twilio_Signature (Some flipped))).1
        = Normal invalid_signature).
Proof.
  intros Hget Hnext Hi Hbit flipped. subst flipped.
  assert (signature <> []) as Hne.
  { intros ->. rewrite middleware_missing in Hnext by by rewrite Hget. done. }
  destruct (middleware_present this req signature Hget Hne) as [Hr _].
  rewrite Hr in Hnext. split.
  - intros token _. rewrite !validateSignature_result.
    intros [= Ha]. f_equal. by apply accepts_flipped.
  - intros token Htokens. rewrite Htokens in Hnext. cbn [existsb] in Hnext.
    rewrite orb_false_r in Hnext.
    destruct (accepts signature (request_url req) (body req) token) eqn:Ha; [|done].
    set (flipped := encode (flip_bit (decode signature) i bit)).
    assert (flipped <> []) as Hne'.
    { apply encode_nonempty. intros Hnil.
      pose proof (flip_bit_length (decode signature) i bit) as Hlen.
      rewrite Hnil, (accepts_length _ _ _ _ Ha) in Hlen. done. }
    destruct (middleware_present this
                (set_header req X_Twilio_Signature (Some flipped)) flipped eq_refl Hne')
      as [-> _].
    rewrite request_url_set_signature, Htokens. cbn [body set_header existsb].
    subst flipped. by rewrite (accepts_flipped _ _ _ _ i bit Ha Hi Hbit).
Qed.

Example flipped_digest_example :
  encode (flip_bit (decode (js "s4/5u1M6Db8h+ppsRMUJ/73uD8A=")) 19 0)
  = js "s4/5u1M6Db8h+ppsRMUJ/73uD8E="
  /\ (middleware (Validator [js "tok"] (js "AC1"))
        (demo_request (Some (js "s4/5u1M6Db8h+ppsRMUJ/73uD8E=")))).1
     = Normal invalid_signature.
Proof. vm_compute. auto. Qed.

(** ** Changing one bit of the header *)

























(** The flips of the signature of the example that leave its decoded bytes
    as they are: one in the last character of the alphabet, five in the
    padding character, none before. *)
Example flips_still_accepted :
  let signature := js "s4/5u1M6Db8h+ppsRMUJ/73uD8A=" in
  filter (fun '(i, bit) =>
            bool_decide (decode (flip_bit signature i bit) = decode signature))
         (i ← seq 0 28; bit ← seqZ 0 8; [(i, bit)])
  = [(26%nat, 1); (27%nat, 0); (27%nat, 1); (27%nat, 5); (27%nat, 6); (27%nat, 7)].
Proof. vm_compute. reflexivity. Qed.

(** A header that passes without being the signature as sent (a space
    before it) can pass again with a bit of an early character inverted:
    the space becomes an exclamation mark, skipped as well. *)
Example flip_in_lenient_header :
  let this := Validator [js "tok"] (js "AC1") in
  let header := js " s4/5u1M6Db8h+ppsRMUJ/73uD8A=" in
  (middleware this (demo_request (Some header))).1 = Normal Next
  /\ flip_bit header 0 0 = js "!s4/5u1M6Db8h+ppsRMUJ/73uD8A="
  /\ (middleware this (demo_request (Some (flip_bit header 0 0)))).1 = Normal Next.
Proof. vm_compute. auto. Qed.


(** ** Rotation *)

(** C6, as the code has it: a request signed with [old] passes while the
    validator holds [old] and [new], and only the digest under [old] is
    computed; once the validator holds [new] alone the request is refused,
    provided its digest under [new] is not its digest under [old].  For any
    validator the tokens are tried in array order, up to the first that
    accepts. *)
Theorem rotation sid req old new :
  get req X_Twilio_Signature = Some (sign (request_url req) (body req) old) ->
  (middleware (Validator [old; new] sid) req).1 = Normal Next
  /\ hmac_keys (middleware (Validator [old; new] sid) req).2 = [old]
  /\ (digest_of (request_url req) (body req) new
        <> digest_of (request_url req) (body req) old ->
      (middleware (Validator [new] sid) req).1 = Normal invalid_signature)
  /\ (forall this,
        hmac_keys (middleware this req).2 =
          tried_until (accepts (sign (request_url req) (body req) old)
                         (request_url req) (body req)) (authTokens this)
        /\ (middleware this req).1 =
           Normal (if existsb (accepts (sign (request_url req) (body req) old)
                                 (request_url req) (body req)) (authTokens this)
                   then Next else invalid_signature)).
Proof.
  intros Hget.
  pose proof (fun this => middleware_present this req _ Hget (sign_nonempty _ _ _)) as H.
  repeat split; try apply H.
  - destruct (H (Validator [old; new] sid)) as [-> _].
    cbn [authTokens existsb]. by rewrite accepts_sign.
  - destruct (H (Validator [old; new] sid)) as [_ ->].
    cbn [authTokens tried_until]. by rewrite accepts_sign.
  - intros Hdiff. destruct (H (Validator [new] sid)) as [-> _].
    cbn [authTokens existsb]. rewrite orb_false_r.
    unfold accepts. rewrite decode_sign.
    by rewrite bool_decide_eq_false_2.
Qed.

Lemma rotation_witness :
  let req := demo_request (Some (sign (js "https://a.test/sms") demo_params (js "old"))) in
  (middleware (Validator [js "old"; js "new"] (js "AC1")) req).1 = Normal Next
  /\ hmac_keys (middleware (Validator [js "old"; js "new"] (js "AC1")) req).2 = [js "old"]
  /\ (digest_of (request_url req) (body req) (js "new")
        <> digest_of (request_url req) (body req) (js "old") ->
      (middleware (Validator [js "new"] (js "AC1")) req).1 = Normal invalid_signature)
  /\ (forall this,
        hmac_keys (middleware this req).2 =
          tried_until (accepts (sign (request_url req) (body req) (js "old"))
                         (request_url req) (body req)) (authTokens this)
        /\ (middleware this req).1 =
           Normal (if existsb (accepts (sign (request_url req) (body req) (js "old"))
                                 (request_url req) (body req)) (authTokens this)
                   then Next else invalid_signature)).
Proof.
  intros req. apply (rotation (js "AC1") req (js "old") (js "new")). reflexivity.
Defined.

Example rotation_example :
  let req := demo_request (Some (sign (js "https://a.test/sms") demo_params (js "old"))) in
  (middleware (Validator [js "old"; js "new"] (js "AC1")) req).1 = Normal Next
  /\ (middleware (Validator [js "new"] (js "AC1")) req).1 = Normal invalid_signature
  /\ hmac_keys (middleware (Validator [js "new"; js "old"] (js "AC1")) req).2
     = [js "new"; js "old"].
Proof. vm_compute. auto. Qed.

(** Two different tokens with the same digests: HMAC fills a short key
    with zero bytes, so a token and the same token followed by a NUL
    character sign alike.  The constructor takes both, and the request
    signed with the first still passes when only the second is held. *)
Lemma rotation_same_digest :
  let old := js "tok" in
  let new := js "tok" ++ [0] in
  let req := demo_request (Some (sign (js "https://a.test/sms") demo_params old)) in
  old <> new
  /\ (constructor (Tokens [old; new]) (Some (js "AC1"))).1
     = Normal (Validator [old; new] (js "AC1"))
  /\ (constructor (Tokens [new]) (Some (js "AC1"))).1
     = Normal (Validator [new] (js "AC1"))
  /\ (middleware (Validator [old; new] (js "AC1")) req).1 = Normal Next
  /\ (middleware (Validator [new] (js "AC1")) req).1 = Normal Next.
Proof. vm_compute. repeat split; (reflexivity || discriminate). Qed.


(** * Further properties of the validator *)

(** ** The constructor *)

Lemma constructor_char tokens sid v t :
  constructor tokens sid = (Normal v, t) <->
  let ts := match tokens with Tokens ts => ts | Single token => [token] end in
  ts <> [] /\ Forall (fun token => token <> []) ts /\ falsy sid = false
  /\ v = Validator ts (to_str sid) /\ t = [].
Proof.
  unfold constructor. cbv zeta.
  set (ts := match tokens with Tokens ts => ts | Single token => [token] end).
  clearbody ts. clear tokens.
  assert (existsb (fun token => falsy (Some token)) ts = false
          <-> Forall (fun token => token <> []) ts) as Hex.
  { induction ts as [|x l IH]; cbn [existsb].
    - split; [constructor|done].
    - rewrite orb_false_iff, IH, Forall_cons. destruct x; cbn; intuition congruence. }
  destruct ts as [|x l].
  { cbn. split; [done|]. by intros [? _]. }
  cbn [length Nat.eqb orb].
  destruct (existsb _ (x :: l)) eqn:He.
  { unfold throw. split; [done|]. intros (_ & HF & _).
    apply Hex in HF. done. }
  destruct (falsy sid) eqn:Hsid.
  { unfold throw. split; [done|]. by intros (_ & _ & ? & _). }
  unfold ret. split.
  - intros [= <- <-]. repeat split; try done. by apply Hex.
  - intros (_ & _ & _ & -> & ->). done.
Qed.

(** X1: the constructor returns a validator exactly when there is at least one
    token, no token is empty and the account SID is a non-empty string;
    the validator then holds the tokens as given (a single token as an
    array of one) and nothing is logged. *)
Theorem constructor_returns tokens sid v t :
  constructor tokens sid = (Normal v, t) <->
  let ts := match tokens with Tokens ts => ts | Single token => [token] end in
  ts <> [] /\ Forall (fun token => token <> []) ts /\ falsy sid = false
  /\ v = Validator ts (to_str sid) /\ t = [].
Proof. apply constructor_char. Qed.

Lemma constructor_fails tokens sid :
  let ts := match tokens with Tokens ts => ts | Single token => [token] end in
  ((ts = [] \/ [] ∈ ts) ->
   constructor tokens sid
   = (Throw (Error (js "TWILIO_AUTH_TOKEN must be provided and non-empty")), []))
  /\ (ts <> [] -> [] ∉ ts -> falsy sid = true ->
      constructor tokens sid
      = (Throw (Error (js "TWILIO_ACCOUNT_SID must be provided")), [])).
Proof.
  unfold constructor. cbv zeta.
  set (ts := match tokens with Tokens ts => ts | Single token => [token] end).
  clearbody ts. clear tokens.
  assert (existsb (fun token => falsy (Some token)) ts = true <-> [] ∈ ts) as Hex.
  { induction ts as [|x l IH]; cbn [existsb].
    - split; [done|]. by intros ?%elem_of_nil.
    - rewrite orb_true_iff, IH, elem_of_cons. destruct x; cbn; intuition congruence. }
  split.
  - intros [Hnil|Hin].
    + by rewrite Hnil.
    + apply Hex in Hin. rewrite Hin. by rewrite orb_true_r.
  - intros Hne Hnin Hsid.
    destruct (existsb _ ts) eqn:He; [destruct Hnin; by apply Hex|].
    destruct ts; [done|]. cbn [length Nat.eqb orb]. by rewrite Hsid.
Qed.

(** X2: the constructor throws exactly in two cases: for an empty array or an
    array with an empty token, with the message about the auth token; and,
    the tokens being in order, for a missing or empty account SID, with
    the message about the SID.  Nothing is logged. *)
Theorem constructor_throws tokens sid e t :
  constructor tokens sid = (Throw e, t) <->
  let ts := match tokens with Tokens ts => ts | Single token => [token] end in
  t = []
  /\ ((e = Error (js "TWILIO_AUTH_TOKEN must be provided and non-empty")
       /\ (ts = [] \/ [] ∈ ts))
      \/ (e = Error (js "TWILIO_ACCOUNT_SID must be provided")
          /\ ts <> [] /\ ([] ∉ ts) /\ falsy sid = true)).
Proof.
  cbv zeta.
  destruct (constructor_fails tokens sid) as [Htok Hsid]. cbv zeta in Htok, Hsid.
  set (ts := match tokens with Tokens ts => ts | Single token => [token] end) in *.
  destruct (decide (ts = [] \/ [] ∈ ts)) as [Hbad|Hgood].
  { rewrite (Htok Hbad). split.
    - intros [= <- <-]. split; [done|]. by left.
    - intros (-> & [[-> _]|(_ & Hne & Hnin & _)]); [done|].
      destruct Hbad; [done|]. by destruct Hnin. }
  assert (ts <> [] /\ [] ∉ ts) as [Hne Hnin] by (split; intros ?; apply Hgood; auto).
  destruct (falsy sid) eqn:Hf.
  { rewrite (Hsid Hne Hnin eq_refl). split.
    - intros [= <- <-]. split; [done|]. by right.
    - intros (-> & [[_ Hbad]|[-> _]]); [by destruct Hgood|done]. }
  split.
  - intros Hthrow.
    assert (exists v0 t0, constructor tokens sid = (Normal v0, t0)) as (v0 & t0 & H0).
    { eexists _, _. apply constructor_char. cbv zeta. fold ts.
      split; [done|]. split; [|done].
      apply Forall_forall. intros token Hin ->. done. }
    rewrite H0 in Hthrow. done.
  - intros (_ & [[_ Hbad]|(_ & _ & _ & ?)]); [by destruct Hgood|done].
Qed.

(** ** Any body: agreement with the validator on bodies of strings *)

Lemma bind_ret_l {A B} (a : A) (f : A -> M B) : bind (ret a) f = f a.
Proof. unfold bind, ret. by destruct (f a). Qed.


Lemma anybody_prop_strings (o : object) key :
  AnyBody.prop (strings o) key = AnyBody.Converts <$> prop o key.
Proof.
  induction o as [|[k v] o IH]; [done|]. cbn [strings fmap list_fmap fst snd].
  cbn [AnyBody.prop prop]. fold (strings o). by destruct (decide (k = key)).
Qed.

Lemma anybody_reduce_strings (o : object) names acc :
  AnyBody.reduce (fun acc key => AnyBody.append acc key (AnyBody.prop (strings o) key))
                 names acc
  = ret (fold_left (fun acc key => acc ++ key ++ to_str (prop o key)) names acc).
Proof.
  revert acc. induction names as [|key names IH]; intros acc; [done|].
  cbn [AnyBody.reduce fold_left]. rewrite anybody_prop_strings.
  destruct (prop o key) as [v|]; cbn [fmap option_fmap option_map AnyBody.append to_str];
    by rewrite bind_ret_l, IH.
Qed.

Lemma anybody_signatureString_strings url (o : object) :
  AnyBody.signatureString url (Some (strings o)) = ret (signatureString url o).
Proof.
  unfold AnyBody.signatureString, signatureString, keys.
  assert ((strings o).*1 = o.*1) as ->.
  { unfold strings. rewrite <- list_fmap_compose. by apply list_fmap_ext. }
  by rewrite anybody_reduce_strings, bind_ret_l.
Qed.

Lemma anybody_validateSignature_strings signature url (o : object) token :
  AnyBody.validateSignature signature url (Some (strings o)) token
  = validateSignature signature url o token.
Proof.
  unfold AnyBody.validateSignature, validateSignature.
  by rewrite anybody_signatureString_strings, bind_ret_l.
Qed.

Lemma some_ext {A} (f g : A -> M bool) (l : list A) :
  (forall x, f x = g x) -> some f l = some g l.
Proof.
  intros H. induction l as [|x l IH]; [done|]. cbn [some]. by rewrite H, IH.
Qed.

Lemma anybody_middleware_strings this req :
  AnyBody.middleware this (of_request req) = middleware this req.
Proof.
  unfold AnyBody.middleware, middleware, of_request. cbn [AnyBody.get AnyBody.body].
  destruct (falsy (get req X_Twilio_Signature)); [done|].
  change (AnyBody.request_url _) with (request_url req).
  by rewrite (some_ext _ _ _ (fun token =>
               anybody_validateSignature_strings _ _ _ token)).
Qed.

(** ** Any body: one token *)





Example validateSignature_on_other_bodies :
  AnyBody.validateSignature (js "s4/5u1M6Db8h+ppsRMUJ/73uD8A=") (js "https://a.test/sms")
    (Some [(js "a", AnyBody.Unconvertible)]) (js "tok")
  = (Normal false,
     [ConsoleError (js "Error validating Twilio signature:")
                   (js "Cannot convert object to primitive value")])
  /\ AnyBody.validateSignature (js "s4/5u1M6Db8h+ppsRMUJ/73uD8A=") (js "https://a.test/sms")
       None (js "tok")
     = (Normal false,
        [ConsoleError (js "Error validating Twilio signature:")
                      (js "Cannot convert undefined or null to object")])
  /\ (AnyBody.validateSignature (js "s4/5u1M6Db8h+ppsRMUJ/73uD8A=") (js "https://a.test/sms")
        (Some (strings demo_params)) (js "tok")).1
     = Normal true.
Proof. vm_compute. auto. Qed.

(** A code unit above 255 is read by its low eight bits: U+0141 as the
    letter A, U+013D as the padding character. *)
Example header_code_units_above_255 :
  decode (js "s4/5u1M6Db8h+ppsRMUJ/73uD8" ++ [0x141; 0x13D])
  = decode (js "s4/5u1M6Db8h+ppsRMUJ/73uD8A=")
  /\ (AnyBody.validateSignature (js "s4/5u1M6Db8h+ppsRMUJ/73uD8" ++ [0x141; 0x13D])
        (js "https://a.test/sms") (Some (strings demo_params)) (js "tok")).1
     = Normal true.
Proof. vm_compute. auto. Qed.

(** ** The middleware, exactly *)

Lemma existsb_accepts signature url params tokens :
  existsb (accepts signature url params) tokens = true <->
  exists token, token ∈ tokens /\ decode signature = digest_of url params token.
Proof.
  rewrite existsb_exists. unfold accepts. split.
  - intros (token & Hin%list_elem_of_In & H%bool_decide_eq_true). eauto.
  - intros (token & Hin%list_elem_of_In & H). exists token.
    split; [done|]. by apply bool_decide_eq_true.
Qed.

Lemma middleware_next this req :
  (middleware this req).1 = Normal Next <->
  exists signature token,
    get req X_Twilio_Signature = Some signature /\ signature <> []
    /\ token ∈ authTokens this
    /\ decode signature = digest_of (request_url req) (body req) token.
Proof.
  split.
  - intros Hnext.
    destruct (get req X_Twilio_Signature) as [[|c s]|] eqn:Hget;
      try (rewrite middleware_missing in Hnext by (by rewrite Hget); done).
    destruct (middleware_present this req (c :: s) Hget) as [Hr _]; [done|].
    rewrite Hr in Hnext.
    destruct (existsb _ _) eqn:He; [|done].
    apply existsb_accepts in He as (token & Hin & Hd). eauto 8.
  - intros (signature & token & Hget & Hne & Hin & Hd).
    destruct (middleware_present this req signature Hget Hne) as [-> _].
    assert (existsb (accepts signature (request_url req) (body req)) (authTokens this)
            = true) as ->; [|done].
    apply existsb_accepts. eauto.
Qed.

(** X4: the middleware calls [next()] exactly when the header is a non-empty
    string that decodes to the digest of the request under one of the
    tokens. *)
Theorem middleware_next_iff this req :
  (middleware this req).1 = Normal Next <->
  exists signature token,
    get req X_Twilio_Signature = Some signature /\ signature <> []
    /\ token ∈ authTokens this
    /\ decode signature = digest_of (request_url req) (body req) token.
Proof. apply middleware_next. Qed.

(** X5: the reply depends on which tokens the validator holds, not on their
    order or on how often each is listed. *)
Theorem middleware_tokens_as_set this this' req :
  (forall token, token ∈ authTokens this <-> token ∈ authTokens this') ->
  (middleware this req).1 = (middleware this' req).1.
Proof.
  intros Hsame.
  destruct (falsy (get req X_Twilio_Signature)) eqn:Hf.
  { by rewrite !middleware_missing. }
  destruct (get req X_Twilio_Signature) as [[|c s]|] eqn:Hget; try done.
  destruct (middleware_present this req (c :: s) Hget) as [-> _]; [done|].
  destruct (middleware_present this' req (c :: s) Hget) as [-> _]; [done|].
  assert (existsb (accepts (c :: s) (request_url req) (body req)) (authTokens this)
          = existsb (accepts (c :: s) (request_url req) (body req)) (authTokens this'))
    as ->; [|done].
  apply eq_true_iff_eq. rewrite !existsb_accepts.
  split; intros (token & Hin & Hd); exists token; split; try done; by apply Hsame.
Qed.

Lemma middleware_tokens_as_set_witness :
  (middleware (Validator [js "old"; js "tok"] (js "AC1"))
     (demo_request (Some (js "s4/5u1M6Db8h+ppsRMUJ/73uD8A=")))).1
  = (middleware (Validator [js "tok"; js "old"; js "tok"] (js "AC2"))
       (demo_request (Some (js "s4/5u1M6Db8h+ppsRMUJ/73uD8A=")))).1.
Proof.
  apply middleware_tokens_as_set. intros token. cbn [authTokens].
  rewrite !elem_of_cons. intuition.
Defined.

(** X6: adding tokens never turns an accepted request into a refused one. *)
Theorem middleware_more_tokens this this' req :
  (forall token, token ∈ authTokens this -> token ∈ authTokens this') ->
  (middleware this req).1 = Normal Next ->
  (middleware this' req).1 = Normal Next.
Proof.
  intros Hsub. rewrite !middleware_next.
  intros (signature & token & Hget & Hne & Hin & Hd).
  exists signature, token. auto.
Qed.

Lemma middleware_more_tokens_witness :
  (middleware (Validator [js "new"; js "tok"] (js "AC1"))
     (demo_request (Some (js "s4/5u1M6Db8h+ppsRMUJ/73uD8A=")))).1
  = Normal Next.
Proof.
  apply (middleware_more_tokens (Validator [js "tok"] (js "AC1"))).
  - intros token. cbn [authTokens]. rewrite !elem_of_cons. intuition.
  - vm_compute. reflexivity.
Defined.

(** ** The digests computed *)

Lemma tried_until_first {A} (accepted : A -> bool) (l : list A) :
  existsb accepted l = true ->
  exists before x after,
    l = before ++ x :: after
    /\ tried_until accepted l = before ++ [x]
    /\ accepted x = true
    /\ Forall (fun y => accepted y = false) before.
Proof.
  induction l as [|x l IH]; [done|]. cbn [existsb tried_until].
  destruct (accepted x) eqn:Hx.
  - intros _. exists [], x, l. by repeat split.
  - cbn [orb]. intros (before & y & after & -> & -> & Hy & Hb)%IH.
    exists (x :: before), y, after. repeat split; try done. by constructor.
Qed.





(** The same header on a body of strings, on a body with a value that
    cannot be converted and without a body: three digests, none, none; the
    reply is the same 403. *)
Example invalid_on_other_bodies :
  let this := Validator [js "old"; js "new"; js "old"] (js "AC1") in
  let header := Some (js "s4/5u1M6Db8h+ppsRMUJ/73uD8A=") in
  hmac_keys (AnyBody.middleware this (of_request (demo_request header))).2
  = [js "old"; js "new"; js "old"]
  /\ (AnyBody.middleware this (unconvertible_request header)).1 = Normal invalid_signature
  /\ hmac_keys (AnyBody.middleware this (unconvertible_request header)).2 = []
  /\ (AnyBody.middleware this (bodiless_request header)).1 = Normal invalid_signature
  /\ hmac_keys (AnyBody.middleware this (bodiless_request header)).2 = [].
Proof. vm_compute. auto. Qed.

(** X8: an accepted request has cost the digests of the tokens up to the first
    one whose digest is the decoded header: the tokens before it were tried
    and did not match, the tokens after it were not tried. *)
Theorem accepted_stops_at_first_match this req :
  (middleware this req).1 = Normal Next ->
  exists signature before token after,
    get req X_Twilio_Signature = Some signature
    /\ authTokens this = before ++ token :: after
    /\ hmac_keys (middleware this req).2 = before ++ [token]
    /\ decode signature = digest_of (request_url req) (body req) token
    /\ Forall (fun earlier =>
                 decode signature <> digest_of (request_url req) (body req) earlier)
              before.
Proof.
  intros Hnext.
  destruct (get req X_Twilio_Signature) as [[|c s]|] eqn:Hget;
    try (rewrite middleware_missing in Hnext by (by rewrite Hget); done).
  destruct (middleware_present this req (c :: s) Hget) as [Hr Hk]; [done|].
  rewrite Hr in Hnext.
  destruct (existsb _ _) eqn:He; [|done].
  apply tried_until_first in He as (before & token & after & Hl & Ht & Ha & Hb).
  exists (c :: s), before, token, after.
  split; [done|]. split; [done|]. split; [by rewrite Hk|].
  split; [by apply bool_decide_eq_true in Ha|].
  eapply Forall_impl; [exact Hb|].
  intros earlier H. by apply bool_decide_eq_false in H.
Qed.

Lemma accepted_stops_at_first_match_witness :
  exists signature before token after,
    get (demo_request (Some (js "s4/5u1M6Db8h+ppsRMUJ/73uD8A="))) X_Twilio_Signature
    = Some signature
    /\ authTokens (Validator [js "old"; js "tok"; js "new"] (js "AC1"))
       = before ++ token :: after
    /\ hmac_keys (middleware (Validator [js "old"; js "tok"; js "new"] (js "AC1"))
                    (demo_request (Some (js "s4/5u1M6Db8h+ppsRMUJ/73uD8A=")))).2
       = before ++ [token]
    /\ decode signature
       = digest_of (request_url (demo_request (Some (js "s4/5u1M6Db8h+ppsRMUJ/73uD8A="))))
           (body (demo_request (Some (js "s4/5u1M6Db8h+ppsRMUJ/73uD8A=")))) token
    /\ Forall (fun earlier =>
                 decode signature
                 <> digest_of
                      (request_url (demo_request (Some (js "s4/5u1M6Db8h+ppsRMUJ/73uD8A="))))
                      (body (demo_request (Some (js "s4/5u1M6Db8h+ppsRMUJ/73uD8A="))))
                      earlier)
              before.
Proof. apply accepted_stops_at_first_match. vm_compute. reflexivity. Defined.

(** ** What is logged *)

Lemma validateSignature_quiet signature url params token :
  Forall (fun ev => is_warn ev = false /\ is_log ev = false)
         (validateSignature signature url params token).2.
Proof.
  rewrite validateSignature_spec. cbn [snd].
  destruct (_ =? _)%nat; repeat constructor.
Qed.

Lemma some_quiet signature url params tokens :
  Forall (fun ev => is_warn ev = false /\ is_log ev = false)
         (some (fun token => validateSignature signature url params token) tokens).2.
Proof.
  induction tokens as [|token tokens IH]; [constructor|].
  pose proof (some_cons signature url params token tokens) as Hc.
  cbv zeta in Hc. rewrite Hc.
  destruct (accepts signature url params token); cbn [snd].
  - apply validateSignature_quiet.
  - apply Forall_app. split; [apply validateSignature_quiet | apply IH].
Qed.

Lemma middleware_present_trace this req signature :
  get req X_Twilio_Signature = Some signature -> signature <> [] ->
  exists t,
    Forall (fun ev => is_warn ev = false /\ is_log ev = false) t
    /\ middleware this req =
       if existsb (accepts signature (request_url req) (body req)) (authTokens this)
       then (Normal Next, t ++ [ConsoleLog (js "Webhook validation successful")])
       else (Normal invalid_signature,
             t ++ [ConsoleWarn (js "Webhook validation failed: Invalid signature")]).
Proof.
  intros Hget Hne. unfold middleware.
  rewrite Hget, (falsy_nonempty _ Hne). cbn [to_str].
  pose proof (some_result signature (request_url req) (body req) (authTokens this)) as Hr.
  pose proof (some_quiet signature (request_url req) (body req) (authTokens this)) as Hq.
  cbv zeta in Hr.
  destruct (some _ (authTokens this)) as [c t].
  cbn [fst snd] in Hr, Hq. subst c. exists t. split; [done|].
  generalize (existsb (accepts signature (request_url req) (body req)) (authTokens this)).
  intros [|]; reflexivity.
Qed.

Lemma filter_quiet_warn t :
  Forall (fun ev => is_warn ev = false /\ is_log ev = false) t ->
  filter (fun ev => is_warn ev) t = [] /\ filter (fun ev => is_log ev) t = [].
Proof.
  induction 1 as [|ev t [Hw Hl] _ [IHw IHl]]; [done|].
  rewrite !filter_cons, Hw, Hl. cbn. done.
Qed.

(** X9: every run ends with one console message that tells its outcome: the
    notice of success when [next()] is called and never a warning, one
    warning and no notice of success when the request is refused. *)
Theorem middleware_log_tells_outcome this req :
  match middleware this req with
  | (Normal Next, t) =>
      last t = Some (ConsoleLog (js "Webhook validation successful"))
      /\ filter (fun ev => is_warn ev) t = []
  | (Normal (Json _ _ _), t) =>
      (exists msg, last t = Some (ConsoleWarn msg)
                   /\ filter (fun ev => is_warn ev) t = [ConsoleWarn msg])
      /\ filter (fun ev => is_log ev) t = []
  | (Throw _, _) => False
  end.
Proof.
  destruct (falsy (get req X_Twilio_Signature)) eqn:Hf.
  { rewrite middleware_missing by done. unfold missing_signature.
    split; [|done]. eexists. split; reflexivity. }
  destruct (get req X_Twilio_Signature) as [[|c s]|] eqn:Hget; try done.
  destruct (middleware_present_trace this req (c :: s) Hget) as (t & Hq & ->); [done|].
  destruct (filter_quiet_warn t Hq) as [Hw Hl].
  destruct (existsb _ _); unfold invalid_signature.
  - rewrite last_snoc, filter_app, Hw. done.
  - rewrite last_snoc, !filter_app, Hw, Hl. split; [|done].
    eexists. split; reflexivity.
Qed.

(** ** Headers that decode alike *)

Lemma with_signature_get req signature :
  get (with_signature req signature) X_Twilio_Signature = Some signature.
Proof. reflexivity. Qed.

(** Two headers with the same decoded bytes get the same reply and cost
    the same digests. *)
Lemma middleware_same_bytes this req s1 s2 :
  s1 <> [] -> s2 <> [] -> decode s1 = decode s2 ->
  (middleware this (with_signature req s1)).1 = (middleware this (with_signature req s2)).1
  /\ hmac_keys (middleware this (with_signature req s1)).2
     = hmac_keys (middleware this (with_signature req s2)).2.
Proof.
  intros H1 H2 Hd.
  destruct (middleware_present this (with_signature req s1) s1 eq_refl H1) as [-> ->].
  destruct (middleware_present this (with_signature req s2) s2 eq_refl H2) as [-> ->].
  unfold with_signature. rewrite !request_url_set_signature. cbn [body set_header].
  assert (accepts s1 (request_url req) (body req) = accepts s2 (request_url req) (body req))
    as ->; [|done].
  unfold accepts. by rewrite Hd.
Qed.

Lemma decode_from_after_pad p s junk :
  decode_from p (s ++ pad_char :: junk) = decode_from p s.
Proof.
  revert p. induction s as [|c s IH]; intros p; [done|].
  cbn [app decode_from].
  destruct (unbase64 c); [destruct p; by rewrite IH|].
  destruct (c mod 256 =? pad_char); [done|apply IH].
Qed.

Lemma decode_from_skip_inside p s1 c s2 :
  unbase64 c = None -> c mod 256 <> pad_char ->
  decode_from p (s1 ++ c :: s2) = decode_from p (s1 ++ s2).
Proof.
  intros Hc Hp. revert p. induction s1 as [|x s1 IH]; intros p.
  { by apply decode_from_skip. }
  cbn [app decode_from].
  destruct (unbase64 x); [destruct p; by rewrite IH|].
  destruct (x mod 256 =? pad_char); [done|apply IH].
Qed.

Lemma decode_from_url_safe p s : decode_from p (url_safe s) = decode_from p s.
Proof.
  revert p. induction s as [|c s IH]; intros p; [done|].
  cbn [url_safe map decode_from]. fold (url_safe s).
  destruct (Z.eqb_spec c 43) as [->|H43].
  { change (unbase64 45) with (Some 62). change (unbase64 43) with (Some 62).
    destruct p; by rewrite IH. }
  destruct (Z.eqb_spec c 47) as [->|H47].
  { change (unbase64 95) with (Some 63). change (unbase64 47) with (Some 63).
    destruct p; by rewrite IH. }
  destruct (unbase64 c); [destruct p; by rewrite IH|].
  destruct (c mod 256 =? pad_char); [done|apply IH].
Qed.

Lemma sign_ends_with_pad url params token :
  exists s, sign url params token = s ++ [pad_char] /\ length s = 27%nat.
Proof.
  rewrite sign_digest_of.
  pose proof (digest_of_length url params token) as Hlen.
  destruct (digest_of url params token)
    as [|b0 [|b1 [|b2 [|b3 [|b4 [|b5 [|b6 [|b7 [|b8 [|b9 [|b10 [|b11 [|b12 [|b13
       [|b14 [|b15 [|b16 [|b17 [|b18 [|b19 [|b20 d]]]]]]]]]]]]]]]]]]]]];
    try discriminate Hlen.
  cbn [encode].
  eexists (_ :: _ :: _ :: _ :: _ :: _ :: _ :: _ :: _ :: _ :: _ :: _ :: _ :: _
           :: _ :: _ :: _ :: _ :: _ :: _ :: _ :: _ :: _ :: _ :: _ :: _ :: [_]).
  split; reflexivity.
Qed.

(** X10: whatever follows a valid signature in the header is not looked at: the
    signature ends with the padding character, where the reader stops, so
    a request signed with one of the tokens passes with anything appended
    to its signature. *)
Theorem signature_with_suffix_accepted this req token junk :
  token ∈ authTokens this ->
  (middleware this
     (with_signature req (sign (request_url req) (body req) token ++ junk))).1
  = Normal Next.
Proof.
  intros Hin. apply middleware_next.
  exists (sign (request_url req) (body req) token ++ junk), token.
  split; [done|]. split.
  { intros [H _]%app_eq_nil. by apply sign_nonempty in H. }
  split; [done|].
  unfold with_signature. rewrite request_url_set_signature. cbn [body set_header].
  destruct (sign_ends_with_pad (request_url req) (body req) token) as (s & Hs & _).
  rewrite <- decode_sign. unfold decode.
  rewrite Hs, <- app_assoc. cbn [app].
  by rewrite !decode_from_after_pad.
Qed.

Lemma signature_with_suffix_accepted_witness :
  (middleware (Validator [js "tok"] (js "AC1"))
     (with_signature (demo_request None)
        (sign (request_url (demo_request None)) (body (demo_request None)) (js "tok")
         ++ js "anything at all"))).1
  = Normal Next.
Proof.
  apply signature_with_suffix_accepted.
  apply (bool_decide_unpack _). vm_compute. exact I.
Defined.

(** X11: a character that is neither of the alphabet nor the padding character
    (a space, a line break, an exclamation mark) can be put anywhere in a
    header without changing the reply or the digests computed. *)
Theorem skipped_character_ignored this req s1 c s2 :
  unbase64 c = None -> c mod 256 <> pad_char -> s1 ++ s2 <> [] ->
  (middleware this (with_signature req (s1 ++ c :: s2))).1
  = (middleware this (with_signature req (s1 ++ s2))).1
  /\ hmac_keys (middleware this (with_signature req (s1 ++ c :: s2))).2
     = hmac_keys (middleware this (with_signature req (s1 ++ s2))).2.
Proof.
  intros Hc Hp Hne. apply middleware_same_bytes; [by destruct s1|done|].
  by apply decode_from_skip_inside.
Qed.

Lemma skipped_character_ignored_witness :
  (middleware (Validator [js "tok"] (js "AC1"))
     (with_signature (demo_request None) (js "s4/5u1M6Db8h+" ++ 32 :: js "ppsRMUJ/73uD8A="))).1
  = (middleware (Validator [js "tok"] (js "AC1"))
       (with_signature (demo_request None) (js "s4/5u1M6Db8h+" ++ js "ppsRMUJ/73uD8A="))).1
  /\ hmac_keys (middleware (Validator [js "tok"] (js "AC1"))
       (with_signature (demo_request None) (js "s4/5u1M6Db8h+" ++ 32 :: js "ppsRMUJ/73uD8A="))).2
     = hmac_keys (middleware (Validator [js "tok"] (js "AC1"))
         (with_signature (demo_request None) (js "s4/5u1M6Db8h+" ++ js "ppsRMUJ/73uD8A="))).2.
Proof.
  apply skipped_character_ignored.
  - reflexivity.
  - vm_compute. discriminate.
  - vm_compute. discriminate.
Defined.

(** X12: a header written with the URL-safe alphabet gets the reply of the same
    header in the standard alphabet. *)
Theorem url_safe_header_same_reply this req signature :
  (middleware this (with_signature req (url_safe signature))).1
  = (middleware this (with_signature req signature)).1.
Proof.
  destruct signature as [|c s]; [done|].
  apply middleware_same_bytes; [done|done|].
  apply decode_from_url_safe.
Qed.

Example url_safe_header_example :
  url_safe (js "s4/5u1M6Db8h+ppsRMUJ/73uD8A=") = js "s4_5u1M6Db8h-ppsRMUJ_73uD8A="
  /\ (middleware (Validator [js "tok"] (js "AC1"))
        (demo_request (Some (js "s4_5u1M6Db8h-ppsRMUJ_73uD8A=")))).1 = Normal Next.
Proof. vm_compute. auto. Qed.

(** ** The URL behind a proxy *)

(** X13: with non-empty [X-Forwarded-Proto] and [X-Forwarded-Host] headers the
    URL that must have been signed is built from them: the protocol of the
    connection and the [Host] header play no part. *)
Theorem forwarded_url_is_signed this req proto host token :
  get req X_Forwarded_Proto = Some proto -> proto <> [] ->
  get req X_Forwarded_Host = Some host -> host <> [] ->
  token ∈ authTokens this ->
  get req X_Twilio_Signature
  = Some (sign (proto ++ js "://" ++ host ++ originalUrl req) (body req) token) ->
  request_url req = proto ++ js "://" ++ host ++ originalUrl req
  /\ (middleware this req).1 = Normal Next.
Proof.
  intros Hp Hpne Hh Hhne Hin Hget.
  assert (request_url req = proto ++ js "://" ++ host ++ originalUrl req) as Hurl.
  { unfold request_url, or_else.
    rewrite Hp, Hh, (falsy_nonempty _ Hpne), (falsy_nonempty _ Hhne). done. }
  split; [done|]. apply middleware_next.
  eexists _, token. split; [exact Hget|].
  split; [apply sign_nonempty|]. split; [done|].
  rewrite Hurl. apply decode_sign.
Qed.

Lemma forwarded_url_is_signed_witness :
  let req :=
    Request (fun h => match h with
                      | X_Twilio_Signature =>
                          Some (sign (js "https" ++ js "://" ++ js "a.test" ++ js "/sms")
                                  demo_params (js "tok"))
                      | X_Forwarded_Proto => Some (js "https")
                      | X_Forwarded_Host => Some (js "a.test")
                      | Host => Some (js "10.0.0.7:3000")
                      end)
            (js "http") (js "/sms") demo_params in
  request_url req = js "https" ++ js "://" ++ js "a.test" ++ originalUrl req
  /\ (middleware (Validator [js "tok"] (js "AC1")) req).1 = Normal Next.
Proof.
  intros req.
  apply (forwarded_url_is_signed (Validator [js "tok"] (js "AC1")) req
           (js "https") (js "a.test") (js "tok")).
  - reflexivity.
  - vm_compute. discriminate.
  - reflexivity.
  - vm_compute. discriminate.
  - apply (bool_decide_unpack _). vm_compute. exact I.
  - reflexivity.
Defined.

(** ** The expected signature *)

Lemma standard_char_alphabet v : sextet v -> standard_char (alphabet v) = true.
Proof. revert v. apply below_forall. vm_compute. reflexivity. Qed.

(** X14: the expected signature is always twenty-eight characters of
    well-formed base64 ending in one padding character, and it is never
    taken for a missing header. *)
Theorem sign_shape url params token :
  length (sign url params token) = 28%nat
  /\ well_formed (sign url params token) = true
  /\ last (sign url params token) = Some pad_char
  /\ falsy (Some (sign url params token)) = false.
Proof.
  rewrite sign_digest_of.
  pose proof (digest_of_length url params token) as Hlen.
  pose proof (digest_of_range url params token) as Hr.
  destruct (digest_of url params token)
    as [|b0 [|b1 [|b2 [|b3 [|b4 [|b5 [|b6 [|b7 [|b8 [|b9 [|b10 [|b11 [|b12 [|b13
       [|b14 [|b15 [|b16 [|b17 [|b18 [|b19 [|b20 d]]]]]]]]]]]]]]]]]]]]];
    try discriminate Hlen.
  repeat match goal with
         | H : Forall byte_range (_ :: _) |- _ => apply Forall_cons in H as [? H]
         end.
  cbn [encode]. split; [reflexivity|]. split; [|split; reflexivity].
  cbn [well_formed].
  rewrite !standard_char_alphabet
    by first [ by apply sextet0_range | by apply sextet1_range
             | by apply sextet2_range | by apply sextet3_range
             | by apply sextet2_last_range ].
  reflexivity.
Qed.

(** ** The signature string in general *)

Lemma fold_left_concat {A} (f : A -> jsstring) (l : list A) (acc : jsstring) :
  fold_left (fun acc x => acc ++ f x) l acc = acc ++ concat (map f l).
Proof.
  revert acc. induction l as [|x l IH]; intros acc; cbn [fold_left map concat].
  - by rewrite app_nil_r.
  - by rewrite IH, app_assoc.
Qed.

Lemma pairs_of_keys (params : object) :
  NoDup (keys params) ->
  (fun key => (key, to_str (prop params key))) <$> keys params = params.
Proof.
  intros Hnd. unfold keys. rewrite <- list_fmap_compose.
  transitivity (id <$> params); [|apply list_fmap_id].
  apply Forall_fmap_ext, Forall_forall. intros [k v] Hin. cbn.
  by rewrite (prop_elem_of params k v).
Qed.

(** X15: the signature string is the URL followed by the pairs of the body,
    name then value, in the order of their names; every pair of the body
    occurs once. *)
Theorem signatureString_sorted_pairs url (params : object) :
  NoDup (keys params) ->
  exists sorted : object,
    sorted ≡ₚ params
    /\ Sorted str_le (keys sorted)
    /\ signatureString url params
       = url ++ concat (map (fun kv => kv.1 ++ kv.2) sorted).
Proof.
  intros Hnd.
  exists ((fun key => (key, to_str (prop params key))) <$> sort (keys params)).
  split; [|split].
  - rewrite sort_Permutation. by rewrite pairs_of_keys.
  - unfold keys at 1. rewrite <- list_fmap_compose.
    rewrite (list_fmap_ext _ id (sort (keys params))) by done.
    rewrite list_fmap_id. apply sort_sorted.
  - unfold signatureString. f_equal.
    rewrite (fold_left_concat (fun key => key ++ to_str (prop params key))).
    cbn [app]. f_equal.
    change (@map) with (@fmap list _). rewrite <- list_fmap_compose. done.
Qed.

Lemma signatureString_sorted_pairs_witness :
  exists sorted : object,
    sorted ≡ₚ demo_params
    /\ Sorted str_le (keys sorted)
    /\ signatureString (js "https://a.test/sms") demo_params
       = js "https://a.test/sms" ++ concat (map (fun kv => kv.1 ++ kv.2) sorted).
Proof.
  apply signatureString_sorted_pairs.
  apply (bool_decide_unpack _). vm_compute. exact I.
Defined.

(** X16: nothing marks where the URL ends, where a name ends or where a value
    ends: characters can be moved from the end of a name to the start of
    its value, or a parameter folded into the URL, without changing the
    signature string, and [validateSignature] cannot tell such requests
    apart. *)
Theorem boundaries_not_signed url name x value signature token :
  signatureString url [(name ++ x, value)] = signatureString url [(name, x ++ value)]
  /\ signatureString (url ++ name ++ value) [] = signatureString url [(name, value)]
  /\ validateSignature signature url [(name ++ x, value)] token
     = validateSignature signature url [(name, x ++ value)] token
  /\ validateSignature signature (url ++ name ++ value) [] token
     = validateSignature signature url [(name, value)] token.
Proof.
  assert (forall k v, signatureString url [(k, v)] = url ++ k ++ v) as H1.
  { intros k v. unfold signatureString. cbn [keys fmap list_fmap fst].
    change (sort [k]) with [k]. cbn [fold_left prop app].
    by rewrite decide_True. }
  assert (forall u, signatureString u [] = u) as H0.
  { intros u. unfold signatureString. cbn. apply app_nil_r. }
  assert (signatureString url [(name ++ x, value)] = signatureString url [(name, x ++ value)])
    as Ha by (by rewrite !H1, <- !app_assoc).
  assert (signatureString (url ++ name ++ value) [] = signatureString url [(name, value)])
    as Hb by (by rewrite H1, H0).
  split; [done|]. split; [done|].
  unfold validateSignature. by rewrite Ha, Hb.
Qed.

(** * The server *)

(** ** Splitting and trimming *)

Lemma split_nonempty sep s : split sep s <> [].
Proof.
  destruct s as [|c s]; [done|]. cbn [split].
  destruct (c =? sep); [done|]. by destruct (split sep s).
Qed.

Lemma split_no_sep sep s : Forall (fun piece => sep ∉ piece) (split sep s).
Proof.
  induction s as [|c s IH]; cbn [split].
  { repeat constructor. by intros ?%elem_of_nil. }
  destruct (Z.eqb_spec c sep) as [->|Hne].
  { constructor; [by intros ?%elem_of_nil|done]. }
  destruct (split sep s) as [|piece pieces] eqn:Hs; [by apply split_nonempty in Hs|].
  apply Forall_cons in IH as [Hp Hps]. constructor; [|done].
  intros [?|?]%elem_of_cons; [by subst|done].
Qed.

Lemma split_piece sep piece : sep ∉ piece -> split sep piece = [piece].
Proof.
  induction piece as [|c piece IH]; [done|].
  intros [Hc Hp]%not_elem_of_cons. cbn [split].
  destruct (Z.eqb_spec c sep) as [->|_]; [done|]. by rewrite IH.
Qed.

Lemma split_piece_sep sep piece s :
  sep ∉ piece -> split sep (piece ++ sep :: s) = piece :: split sep s.
Proof.
  induction piece as [|c piece IH]; intros Hp; cbn [app split].
  { by rewrite Z.eqb_refl. }
  apply not_elem_of_cons in Hp as [Hc Hp].
  destruct (Z.eqb_spec c sep) as [->|_]; [done|]. by rewrite IH.
Qed.

Lemma split_join sep pieces :
  pieces <> [] -> Forall (fun piece => sep ∉ piece) pieces ->
  split sep (join [sep] pieces) = pieces.
Proof.
  induction pieces as [|piece pieces IH]; [done|]. intros _ [Hp Hps]%Forall_cons.
  destruct pieces as [|piece' pieces].
  { by apply split_piece. }
  change (join [sep] (piece :: piece' :: pieces))
    with (piece ++ sep :: join [sep] (piece' :: pieces)).
  rewrite split_piece_sep by done. by rewrite IH.
Qed.

Lemma trimStart_whitespace l s : all_whitespace l -> trimStart (l ++ s) = trimStart s.
Proof. induction 1 as [|c l Hc _ IH]; [done|]. cbn [app trimStart]. by rewrite Hc. Qed.

Lemma trimEnd_nil s : trimEnd s = [] <-> all_whitespace s.
Proof.
  unfold all_whitespace. induction s as [|c s IH]; cbn [trimEnd].
  { split; [constructor|done]. }
  rewrite Forall_cons, <- IH.
  destruct (trimEnd s); destruct (is_whitespace c); intuition congruence.
Qed.

Lemma trimEnd_whitespace s r : all_whitespace r -> trimEnd (s ++ r) = trimEnd s.
Proof.
  intros Hr. induction s as [|c s IH]; cbn [app].
  { by apply trimEnd_nil. }
  cbn [trimEnd]. by rewrite IH.
Qed.

Lemma trimEnd_last s :
  match last s with Some c => is_whitespace c = false | None => True end ->
  trimEnd s = s.
Proof.
  induction s as [|c s IH]; [done|]. cbn [trimEnd].
  destruct s as [|c' s].
  { cbn. by intros ->. }
  intros H. rewrite IH by done. done.
Qed.

Lemma trim_padded l s r :
  all_whitespace l -> all_whitespace r -> unpadded s -> trim (l ++ s ++ r) = s.
Proof.
  intros Hl Hr [Hhd Hlast]. unfold trim. rewrite trimStart_whitespace by done.
  destruct s as [|c s].
  { cbn [app]. assert (trimStart r = []) as ->; [|done].
    clear -Hr. induction Hr as [|c r Hc _ IH]; [done|]. cbn. by rewrite Hc. }
  cbn [app trimStart]. rewrite Hhd.
  change (c :: s ++ r) with ((c :: s) ++ r).
  rewrite trimEnd_whitespace by done. by apply trimEnd_last.
Qed.

Lemma trimStart_suffix s : exists l, s = l ++ trimStart s /\ all_whitespace l.
Proof.
  induction s as [|c s (l & Hs & Hl)]; [exists []; split; [done|constructor]|].
  cbn [trimStart].
  destruct (is_whitespace c) eqn:Hc.
  - exists (c :: l). split; [cbn; by f_equal|by constructor].
  - exists []. split; [done|constructor].
Qed.

Lemma trimStart_head s :
  match trimStart s with c :: _ => is_whitespace c = false | [] => True end.
Proof.
  induction s as [|c s IH]; [done|]. cbn [trimStart].
  by destruct (is_whitespace c) eqn:Hc.
Qed.

Lemma trimEnd_prefix s : exists r, s = trimEnd s ++ r /\ all_whitespace r.
Proof.
  induction s as [|c s (r & Hs & Hr)]; [exists []; split; [done|constructor]|].
  cbn [trimEnd].
  destruct (trimEnd s) as [|c' rest] eqn:Ht.
  - destruct (is_whitespace c) eqn:Hc.
    + exists (c :: r). cbn in Hs. subst s. split; [done|by constructor].
    + exists r. cbn in Hs. by subst s.
  - exists r. split; [|done]. rewrite Hs at 1. done.
Qed.

Lemma trimEnd_unpadded s :
  match s with c :: _ => is_whitespace c = false | [] => True end ->
  unpadded (trimEnd s).
Proof.
  intros Hhd. split.
  - destruct s as [|c s]; [done|]. cbn [trimEnd].
    destruct (trimEnd s); [by rewrite Hhd|done].
  - clear Hhd. induction s as [|c s IH]; [done|]. cbn [trimEnd].
    destruct (trimEnd s) as [|c' rest].
    + by destruct (is_whitespace c) eqn:Hc.
    + exact IH.
Qed.

Lemma trim_unpadded s : unpadded (trim s).
Proof. apply trimEnd_unpadded, trimStart_head. Qed.

Lemma trim_elem_of c s : c ∈ trim s -> c ∈ s.
Proof.
  unfold trim. intros Hc.
  destruct (trimStart_suffix s) as (l & Hs & _).
  destruct (trimEnd_prefix (trimStart s)) as (r & Hr & _).
  rewrite Hs, Hr, !elem_of_app. auto.
Qed.

Lemma trim_nil s : trim s = [] <-> all_whitespace s.
Proof.
  unfold trim. rewrite trimEnd_nil.
  destruct (trimStart_suffix s) as (l & Hs & Hl). split.
  - intros H. rewrite Hs. by apply Forall_app.
  - intros H. unfold all_whitespace in *. rewrite Hs in H.
    by apply Forall_app in H as [_ H].
Qed.

(** ** The tokens read from the environment *)

Lemma env_authTokens_nonempty value : env_authTokens value <> [].
Proof. unfold env_authTokens. intros H%fmap_nil_inv. by apply split_nonempty in H. Qed.

Lemma is_whitespace_comma c : is_whitespace c = true -> c <> comma.
Proof. by intros H ->. Qed.

(** X17: however [TWILIO_AUTH_TOKEN] is written, the tokens read from it are at
    least one, and none of them holds a comma or starts or ends with white
    space: such a secret cannot be configured. *)
Theorem env_authTokens_clean value :
  env_authTokens value <> []
  /\ Forall (fun token => (comma ∉ token) /\ unpadded token) (env_authTokens value).
Proof.
  unfold env_authTokens. split.
  - intros H%fmap_nil_inv. by apply split_nonempty in H.
  - apply Forall_fmap. eapply Forall_impl; [apply split_no_sep|].
    intros piece Hp. cbn. split; [|apply trim_unpadded].
    intros H%trim_elem_of. done.
Qed.

(** X18: tokens without commas and without white space at their ends are read
    back as they are from a value that lists them separated by commas, with
    any white space around each. *)
Theorem env_authTokens_reads raws tokens :
  tokens <> [] ->
  Forall2 (fun raw token =>
             exists l r, (raw = l ++ (token ++ r))
                         /\ all_whitespace l /\ all_whitespace r
                         /\ (comma ∉ token) /\ unpadded token)
          raws tokens ->
  env_authTokens (join [comma] raws) = tokens.
Proof.
  intros Hne H. unfold env_authTokens.
  rewrite split_join.
  - clear Hne.
    induction H as [|raw token raws tokens (l & r & -> & Hl & Hr & _ & Hu) _ IH]; [done|].
    cbn [map]. rewrite trim_padded by done. by f_equal.
  - intros ->. by inversion H.
  - clear Hne. induction H as [|raw token raws tokens (l & r & -> & Hl & Hr & Hc & _) _ IH];
      constructor; [|done].
    rewrite !elem_of_app. intros [Hin|[Hin|Hin]]; [|done|].
    + unfold all_whitespace in Hl. rewrite Forall_forall in Hl.
      by apply Hl, is_whitespace_comma in Hin.
    + unfold all_whitespace in Hr. rewrite Forall_forall in Hr.
      by apply Hr, is_whitespace_comma in Hin.
Qed.

Lemma env_authTokens_reads_witness :
  env_authTokens (join [comma] [js "old_token_still_valid"; js " new_token_primary "])
  = [js "old_token_still_valid"; js "new_token_primary"].
Proof.
  apply env_authTokens_reads; [vm_compute; discriminate|].
  constructor; [|constructor; [|constructor]].
  - exists [], []. split; [reflexivity|]. split; [constructor|]. split; [constructor|].
    split; [|by vm_compute]. apply (bool_decide_unpack _). vm_compute. exact I.
  - exists (js " "), (js " "). split; [reflexivity|].
    split; [by repeat constructor|]. split; [by repeat constructor|].
    split; [|by vm_compute]. apply (bool_decide_unpack _). vm_compute. exact I.
Defined.

(** ** Start-up *)

Lemma server_start_cases env :
  server_start env =
  if falsy (env (js "TWILIO_AUTH_TOKEN")) || falsy (env (js "TWILIO_ACCOUNT_SID"))
  then (Normal (Exit 1),
        [ConsoleError (0x274C :: js " Missing required environment variables:")
           (join (js ", ")
              (filter (fun varName => falsy (env varName)) requiredEnvVars));
         ConsoleError (js "Please create a .env file based on .env.example") []])
  else (do twilioValidator <-
          constructor
            (Tokens (env_authTokens (to_str (env (js "TWILIO_AUTH_TOKEN")))))
            (env (js "TWILIO_ACCOUNT_SID"));
        ret (Ready twilioValidator)).
Proof.
  unfold server_start, requiredEnvVars. rewrite !filter_cons, filter_nil.
  destruct (falsy (env (js "TWILIO_AUTH_TOKEN"))),
    (falsy (env (js "TWILIO_ACCOUNT_SID"))); reflexivity.
Qed.

(** X19: the script exits with code 1 exactly when one of the two required
    variables is unset or empty, and the error it logs then names the
    variables that are: both, or the one. *)
Theorem server_start_exits env :
  ((exists code t, server_start env = (Normal (Exit code), t)) <->
   falsy (env (js "TWILIO_AUTH_TOKEN")) = true
   \/ falsy (env (js "TWILIO_ACCOUNT_SID")) = true)
  /\ forall code t,
       server_start env = (Normal (Exit code), t) ->
       code = 1
       /\ exists names,
            t = [ConsoleError (0x274C :: js " Missing required environment variables:") names;
                 ConsoleError (js "Please create a .env file based on .env.example") []]
            /\ names =
               if falsy (env (js "TWILIO_AUTH_TOKEN"))
               then if falsy (env (js "TWILIO_ACCOUNT_SID"))
                    then js "TWILIO_AUTH_TOKEN, TWILIO_ACCOUNT_SID"
                    else js "TWILIO_AUTH_TOKEN"
               else js "TWILIO_ACCOUNT_SID".
Proof.
  rewrite server_start_cases. unfold requiredEnvVars.
  rewrite !filter_cons, filter_nil.
  destruct (falsy (env (js "TWILIO_AUTH_TOKEN"))) eqn:Ht,
    (falsy (env (js "TWILIO_ACCOUNT_SID"))) eqn:Hs; cbn [orb].
  1-3: split; [split; eauto|];
       intros code t [= <- <-]; split; [done|]; eexists; split; reflexivity.
  assert (forall code t,
            (do twilioValidator <-
               constructor
                 (Tokens (env_authTokens (to_str (env (js "TWILIO_AUTH_TOKEN")))))
                 (env (js "TWILIO_ACCOUNT_SID"));
             ret (Ready twilioValidator)) <> (Normal (Exit code), t)) as Hno.
  { intros code t. unfold bind, ret.
    destruct (constructor _ _) as [[v|e] t']; done. }
  split.
  - split; [|intros [|]; done]. intros (code & t & H). by apply Hno in H.
  - intros code t H. by apply Hno in H.
Qed.

Lemma server_start_ready env v t :
  server_start env = (Normal (Ready v), t) <->
  exists value sid,
    env (js "TWILIO_AUTH_TOKEN") = Some value
    /\ env (js "TWILIO_ACCOUNT_SID") = Some sid /\ sid <> []
    /\ Forall (fun piece => ~ all_whitespace piece) (split comma value)
    /\ v = Validator (env_authTokens value) sid /\ t = [].
Proof.
  rewrite server_start_cases.
  destruct (falsy (env (js "TWILIO_AUTH_TOKEN"))) eqn:Ht.
  { cbn [orb]. split; [done|]. intros (value & sid & Hv & _ & _ & HF & _).
    rewrite Hv in Ht. destruct value; [|done].
    apply Forall_cons in HF as [H _]. destruct H. constructor. }
  destruct (falsy (env (js "TWILIO_ACCOUNT_SID"))) eqn:Hs.
  { cbn [orb]. split; [done|].
    intros (value & sid & _ & Hsid & Hne & _). rewrite Hsid in Hs. by destruct sid. }
  cbn [orb].
  destruct (env (js "TWILIO_AUTH_TOKEN")) as [value|] eqn:Hvalue; [|done].
  destruct (env (js "TWILIO_ACCOUNT_SID")) as [[|c sid]|] eqn:Hsid; try done.
  cbn [to_str].
  assert (Forall (fun token => token <> []) (env_authTokens value)
          <-> Forall (fun piece => ~ all_whitespace piece) (split comma value)) as Hpieces.
  { unfold env_authTokens. rewrite Forall_fmap. apply Forall_iff. intros piece. cbn.
    by rewrite trim_nil. }
  unfold bind.
  destruct (constructor _ _) as [[v'|e] t'] eqn:Hc.
  - apply constructor_char in Hc. cbv zeta in Hc.
    destruct Hc as (_ & HF & _ & -> & ->). cbn [to_str ret app].
    split.
    + intros [= <- <-]. exists value, (c :: sid). repeat split; try done. by apply Hpieces.
    + intros (value' & sid' & [= <-] & [= <-] & _ & _ & -> & ->). done.
  - split; [done|]. intros (value' & sid' & [= <-] & [= <-] & _ & HF & _).
    assert (exists v0 t0, constructor (Tokens (env_authTokens value))
                            (@Some jsstring (c :: sid))
                          = (Normal v0, t0)) as (v0 & t0 & H0).
    { eexists _, _. apply constructor_char. cbv zeta.
      split; [apply env_authTokens_nonempty|]. split; [by apply Hpieces|]. done. }
    rewrite H0 in Hc. done.
Qed.

(** X20: start-up reaches the routes exactly when both variables are set, the
    account SID is not empty and no piece of [TWILIO_AUTH_TOKEN] between
    commas is empty or blank; the validator then holds the trimmed pieces
    in order, and nothing has been logged. *)
Theorem server_start_ready_iff env v t :
  server_start env = (Normal (Ready v), t) <->
  exists value sid,
    env (js "TWILIO_AUTH_TOKEN") = Some value
    /\ env (js "TWILIO_ACCOUNT_SID") = Some sid /\ sid <> []
    /\ Forall (fun piece => ~ all_whitespace piece) (split comma value)
    /\ v = Validator (env_authTokens value) sid /\ t = [].
Proof. apply server_start_ready. Qed.

(** X21: a value that passes the check of the environment can still stop the
    script: with an empty or blank piece between commas (a trailing comma,
    a value of spaces only) the constructor throws, and the script ends
    with that exception instead of the exit with code 1. *)
Theorem server_start_throws env value sid :
  env (js "TWILIO_AUTH_TOKEN") = Some value -> value <> [] ->
  env (js "TWILIO_ACCOUNT_SID") = Some sid -> sid <> [] ->
  Exists all_whitespace (split comma value) ->
  server_start env
  = (Throw (Error (js "TWILIO_AUTH_TOKEN must be provided and non-empty")), []).
Proof.
  intros Hvalue Hne Hsid Hsne Hblank.
  rewrite server_start_cases, Hvalue, Hsid, !falsy_nonempty by done.
  cbn [orb to_str].
  destruct (constructor_fails (Tokens (env_authTokens value)) (Some sid)) as [Hthrow _].
  cbv zeta in Hthrow. rewrite Hthrow; [done|].
  right. unfold env_authTokens.
  apply Exists_exists in Hblank as (piece & Hin & Hws).
  apply list_elem_of_fmap. exists piece. split; [|done].
  symmetry. by apply trim_nil.
Qed.

Lemma server_start_throws_witness :
  server_start (fun varName =>
                  if bool_decide (varName = js "TWILIO_AUTH_TOKEN") then Some (js "tok,")
                  else if bool_decide (varName = js "TWILIO_ACCOUNT_SID") then Some (js "AC1")
                  else None)
  = (Throw (Error (js "TWILIO_AUTH_TOKEN must be provided and non-empty")), []).
Proof.
  apply (server_start_throws _ (js "tok,") (js "AC1")).
  - reflexivity.
  - vm_compute. discriminate.
  - reflexivity.
  - vm_compute. discriminate.
  - vm_compute. apply Exists_cons_tl, Exists_cons_hd. constructor.
Defined.

(** X22: the validator the routes are given holds at least one token, none of
    them empty, none with a comma or with white space at either end, and a
    non-empty account SID. *)
Theorem server_start_validator env v t :
  server_start env = (Normal (Ready v), t) ->
  authTokens v <> []
  /\ Forall (fun token => token <> [] /\ (comma ∉ token) /\ unpadded token) (authTokens v)
  /\ accountSid v <> [].
Proof.
  intros (value & sid & _ & _ & Hsid & HF & -> & _)%server_start_ready.
  cbn [authTokens accountSid]. split; [apply env_authTokens_nonempty|]. split; [|done].
  unfold env_authTokens. apply Forall_fmap.
  pose proof (split_no_sep comma value) as Hsep.
  rewrite Forall_forall in HF, Hsep. apply Forall_forall. intros piece Hin. cbn.
  split; [by rewrite trim_nil; apply HF|]. split; [|apply trim_unpadded].
  intros H%trim_elem_of. by apply (Hsep piece).
Qed.

Example demo_env_start :
  server_start demo_env
  = (Normal (Ready (Validator [js "old_token_still_valid"; js "new_token_primary"]
                      (js "AC1"))), []).
Proof. vm_compute. reflexivity. Qed.

Lemma server_start_validator_witness :
  authTokens (Validator [js "old_token_still_valid"; js "new_token_primary"] (js "AC1")) <> []
  /\ Forall (fun token => token <> [] /\ (comma ∉ token) /\ unpadded token)
       (authTokens (Validator [js "old_token_still_valid"; js "new_token_primary"] (js "AC1")))
  /\ accountSid (Validator [js "old_token_still_valid"; js "new_token_primary"] (js "AC1")) <> [].
Proof. apply (server_start_validator demo_env _ []). vm_compute. reflexivity. Defined.

(** X23: from the environment to the request: once the script is ready, a
    request signed with any piece of [TWILIO_AUTH_TOKEN], trimmed, passes
    the middleware. *)
Theorem server_start_then_signed env v t value piece req :
  server_start env = (Normal (Ready v), t) ->
  env (js "TWILIO_AUTH_TOKEN") = Some value ->
  piece ∈ split comma value ->
  get req X_Twilio_Signature
  = Some (sign (request_url req) (body req) (trim piece)) ->
  (middleware v req).1 = Normal Next.
Proof.
  intros (value' & sid & Hv & _ & _ & _ & -> & _)%server_start_ready Hvalue Hin Hget.
  rewrite Hvalue in Hv. injection Hv as <-.
  apply middleware_next. eexists _, (trim piece).
  split; [exact Hget|]. split; [apply sign_nonempty|].
  split; [|apply decode_sign].
  cbn [authTokens]. unfold env_authTokens. apply list_elem_of_fmap. eauto.
Qed.

Lemma server_start_then_signed_witness :
  (middleware (Validator [js "old_token_still_valid"; js "new_token_primary"] (js "AC1"))
     (demo_request
        (Some (sign (js "https://a.test/sms") demo_params (trim (js " new_token_primary")))))).1
  = Normal Next.
Proof.
  apply (server_start_then_signed demo_env _ []
           (js "old_token_still_valid, new_token_primary") (js " new_token_primary")).
  - vm_compute. reflexivity.
  - reflexivity.
  - apply (bool_decide_unpack _). vm_compute. exact I.
  - reflexivity.
Defined.

(** ** The routes *)

Lemma guarded_route this handler req :
  match (middleware this req).1 with
  | Normal Next =>
      guarded this handler req
      = ((handler req).1, (middleware this req).2 ++ (handler req).2)
  | Normal (Json status error message) =>
      status = 403
      /\ guarded this handler req
         = (Normal (ResJson 403 error message), (middleware this req).2)
  | Throw _ => False
  end.
Proof.
  unfold guarded, bind.
  destruct (falsy (get req X_Twilio_Signature)) eqn:Hf.
  { rewrite middleware_missing by done. cbn [fst snd missing_signature ret].
    by rewrite app_nil_r. }
  destruct (get req X_Twilio_Signature) as [[|c s]|] eqn:Hget; try done.
  destruct (middleware_present_trace this req (c :: s) Hget) as (t & _ & ->); [done|].
  destruct (existsb _ _); cbn [fst snd invalid_signature ret].
  - by destruct (handler req).
  - by rewrite app_nil_r.
Qed.

(** X25: a signed message is answered with TwiML that repeats its [Body] as it
    came, character for character, between two quotation marks: markup in
    the message is not escaped. *)
Theorem sms_repeats_body this req token text :
  token ∈ authTokens this ->
  get req X_Twilio_Signature = Some (sign (request_url req) (body req) token) ->
  prop (body req) (js "Body") = Some text ->
  (guarded this sms req).1 =
  Normal (ResSend (js "text/xml")
            ((xml_declaration ++ newline ++ js "<Response>" ++ newline
              ++ js "  <Message>Thanks for your message! We received: " ++ quote)
             ++ text
             ++ (quote ++ js "</Message>" ++ newline ++ js "</Response>")))
  /\ last (guarded this sms req).2
     = Some (ConsoleLog (0xD83D :: 0xDCF1 :: js " Valid SMS webhook received:")).
Proof.
  intros Hin Hget Hbody.
  assert ((middleware this req).1 = Normal Next) as Hnext.
  { apply middleware_next. eexists _, token.
    split; [exact Hget|]. split; [apply sign_nonempty|]. split; [done|apply decode_sign]. }
  pose proof (guarded_route this sms req) as Hg. rewrite Hnext in Hg. rewrite Hg.
  unfold sms. rewrite Hbody. cbn [to_str]. cbv [bind emit ret]. cbn [fst snd].
  split.
  - by rewrite <- !app_assoc.
  - change (?t ++ [?ev] ++ []) with (t ++ [ev]). apply last_snoc.
Qed.

Lemma sms_repeats_body_witness :
  (guarded (Validator [js "tok"] (js "AC1")) sms markup_request).1 =
  Normal (ResSend (js "text/xml")
            ((xml_declaration ++ newline ++ js "<Response>" ++ newline
              ++ js "  <Message>Thanks for your message! We received: " ++ quote)
             ++ js "</Message><Redirect>https://b.test/</Redirect><Message>"
             ++ (quote ++ js "</Message>" ++ newline ++ js "</Response>")))
  /\ last (guarded (Validator [js "tok"] (js "AC1")) sms markup_request).2
     = Some (ConsoleLog (0xD83D :: 0xDCF1 :: js " Valid SMS webhook received:")).
Proof.
  apply (sms_repeats_body _ _ (js "tok")).
  - apply (bool_decide_unpack _). vm_compute. exact I.
  - reflexivity.
  - vm_compute. reflexivity.
Defined.
